(** * OKPixels board updater (sub2.py): a shallow embedding and its properties

    The script polls a board file, renders an HTML template, pushes the result
    to a storage contract over a list of RPC endpoints with an escalating gas
    price, and records the fee paid in a shared ledger file.

    Python values are embedded as follows: [str] is a list of characters
    (code points below 256), [int] is [Z], [float] is an IEEE-754 binary64
    number ([SpecFloat.spec_float] at precision 53), [None]/exceptions are
    [option].  Files are modelled by their content; the remote endpoints are
    modelled by the outcome each one produces when it is attempted. *)

From Stdlib Require Import Bool Ascii String.
From Stdlib Require Import List ZArith Lia.
From Stdlib Require DecimalString DecimalN Sorted.
From Stdlib Require Import Floats.SpecFloat.
Import ListNotations.

Open Scope Z_scope.
Open Scope list_scope.

(** ** Python strings *)

Module Py.

Definition str := list ascii.

(** String literals. *)
Definition lit (s : string) : str := list_ascii_of_string s.
Arguments lit s /.

Definition newline : ascii := "010"%char.
Definition carriage_return : ascii := "013"%char.

Definition code (c : ascii) : N := N_of_ascii c.

(** [str.isspace] restricted to code points below 256:
    TAB, LF, VT, FF, CR, FS, GS, RS, US, SPACE, NEL and NBSP. *)
Definition isspace (c : ascii) : bool :=
  let n := code c in
  (((9 <=? n) && (n <=? 13)) || ((28 <=? n) && (n <=? 32))
   || (n =? 133) || (n =? 160))%N.

(** [s.startswith(p)] *)
Fixpoint startswith (p s : str) : bool :=
  match p, s with
  | [], _ => true
  | _ :: _, [] => false
  | a :: p', b :: s' => Ascii.eqb a b && startswith p' s'
  end.

(** [sub in s] *)
Fixpoint contains (sub s : str) : bool :=
  startswith sub s ||
  match s with
  | [] => false
  | _ :: s' => contains sub s'
  end.

(** [s.lstrip()], [s.rstrip()], [s.strip()] (no argument: whitespace). *)
Fixpoint lstrip (s : str) : str :=
  match s with
  | [] => []
  | c :: s' => if isspace c then lstrip s' else s
  end.

Definition rstrip (s : str) : str := rev (lstrip (rev s)).

Definition strip (s : str) : str := rstrip (lstrip s).

(** [s.replace(old, new)]: every non-overlapping occurrence of [old], scanning
    from the left.  [skip] counts the characters of a matched occurrence that
    are still to be dropped. *)
Fixpoint replace_from (skip : nat) (old new s : str) : str :=
  match s with
  | [] => []
  | c :: s' =>
      match skip with
      | S k => replace_from k old new s'
      | O =>
          if startswith old s
          then new ++ replace_from (length old - 1) old new s'
          else c :: replace_from 0 old new s'
      end
  end.

Definition replace (old new s : str) : str :=
  match old with
  | [] => new ++ flat_map (fun c => c :: new) s
  | _ :: _ => replace_from 0 old new s
  end.

(** [s.split(sep)] for a non-empty separator, as the piece in progress and
    the pieces after it. *)
Fixpoint split_from (skip : nat) (sep s : str) : str * list str :=
  match s with
  | [] => ([], [])
  | c :: s' =>
      match skip with
      | S k => split_from k sep s'
      | O =>
          if startswith sep s
          then ([], let '(p, ps) := split_from (length sep - 1) sep s' in p :: ps)
          else let '(p, ps) := split_from 0 sep s' in (c :: p, ps)
      end
  end.

Definition split (sep s : str) : list str :=
  let '(p, ps) := split_from 0 sep s in p :: ps.

(** [c.lower()] on code points below 256: A-Z and the Latin-1 capitals
    (0xC0-0xDE except the multiplication sign 0xD7) move up by 32. *)
Definition lower_char (c : ascii) : ascii :=
  let n := code c in
  if (((65 <=? n) && (n <=? 90))
      || ((192 <=? n) && (n <=? 222) && negb (n =? 215)))%N
  then ascii_of_N (n + 32) else c.

Definition lower (s : str) : str := map lower_char s.

(** Text-mode input with universal newlines: CR LF and a lone CR are read
    as LF. *)
Fixpoint universal_newlines (s : str) : str :=
  match s with
  | [] => []
  | c :: s' =>
      if Ascii.eqb c carriage_return
      then newline :: match s' with
                      | d :: s'' => if Ascii.eqb d newline
                                    then universal_newlines s''
                                    else universal_newlines s'
                      | [] => []
                      end
      else c :: universal_newlines s'
  end.

(** [f.readlines()] on text already read: lines keep their terminating LF;
    only the last line may lack one. *)
Fixpoint readlines (s : str) : list str :=
  match s with
  | [] => []
  | c :: s' =>
      if Ascii.eqb c newline then [c] :: readlines s'
      else match readlines s' with
           | [] => [[c]]
           | l :: ls => (c :: l) :: ls
           end
  end.

(** Line boundaries of [str.splitlines] below code point 256:
    LF, VT, FF, CR, FS, GS, RS and NEL. *)
Definition is_linebreak (c : ascii) : bool :=
  let n := code c in
  (((10 <=? n) && (n <=? 13)) || ((28 <=? n) && (n <=? 30)) || (n =? 133))%N.

(** [s.splitlines()]: terminators are dropped, CR LF counts once, and a
    final empty piece yields no line. *)
Fixpoint splitlines (s : str) : list str :=
  match s with
  | [] => []
  | c :: s' =>
      if Ascii.eqb c carriage_return
      then [] :: match s' with
                 | d :: s'' => if Ascii.eqb d newline
                               then splitlines s''
                               else splitlines s'
                 | [] => []
                 end
      else if is_linebreak c then [] :: splitlines s'
      else match splitlines s' with
           | [] => [[c]]
           | l :: ls => (c :: l) :: ls
           end
  end.

(** ** Python floats: IEEE-754 binary64, round to nearest even *)

Definition float := spec_float.
Definition prec : Z := 53.
Definition emax : Z := 1024.

Definition fadd : float -> float -> float := SFadd prec emax.
Definition fdiv : float -> float -> float := SFdiv prec emax.

(** The binary64 number nearest to [n / d] ([0 <= n], [0 < d]) with sign
    [sgn]: the quotient is taken with at least [prec] bits and the position
    of the remainder decides the rounding. *)
Definition ratio_to_float (sgn : bool) (n d : Z) : float :=
  match n with
  | Z0 => S754_zero sgn
  | _ => let '(q, e, l) := SFdiv_core_binary prec emax n 0 d 0 in
         binary_round_aux prec emax sgn q e l
  end.

(** The binary64 number nearest to [m * 10^e] ([0 <= m]) with sign [sgn]. *)
Definition float_of_decimal (sgn : bool) (m e : Z) : float :=
  if 0 <=? e then ratio_to_float sgn (m * 10 ^ e) 1
  else ratio_to_float sgn m (10 ^ (- e)).

(** The literal [1e18]. *)
Definition float_1e18 : float := float_of_decimal false 1 18.

(** Conversion of an [int] operand of a float operation.  CPython raises
    [OverflowError] ("int too large to convert to float") when the rounded
    magnitude would reach [2^1024]. *)
Definition int_to_float (z : Z) : option float :=
  if Z.abs z <? 2 ^ 1024 - 2 ^ 970
  then Some (binary_normalize prec emax z 0 false)
  else None.

(** *** [float(s)] *)

Definition space : ascii := " "%char.

(** Non-ASCII input is first mapped to ASCII: whitespace becomes a space and
    any other character is invalid. *)
Definition to_ascii_space (c : ascii) : ascii :=
  if (code c <? 127)%N then c
  else if isspace c then space else "?"%char.

(** C-locale whitespace: TAB, LF, VT, FF, CR and SPACE. *)
Definition c_isspace (c : ascii) : bool :=
  let n := code c in (((9 <=? n) && (n <=? 13)) || (n =? 32))%N.

Fixpoint c_lstrip (s : str) : str :=
  match s with
  | [] => []
  | c :: s' => if c_isspace c then c_lstrip s' else s
  end.

Definition c_strip (s : str) : str := rev (c_lstrip (rev (c_lstrip s))).

Definition digit_value (c : ascii) : option Z :=
  let n := code c in
  if ((48 <=? n) && (n <=? 57))%N then Some (Z.of_N n - 48) else None.

Definition is_digit (c : ascii) : bool :=
  match digit_value c with Some _ => true | None => false end.

Definition underscore : ascii := "_"%char.

(** Underscores are allowed between two digits only, and are dropped. *)
Fixpoint drop_underscores (prev : option ascii) (s : str) : option str :=
  match s with
  | [] =>
      match prev with
      | Some p => if Ascii.eqb p underscore then None else Some []
      | None => Some []
      end
  | c :: s' =>
      let prev_digit := match prev with Some p => is_digit p | None => false end in
      let prev_under :=
        match prev with Some p => Ascii.eqb p underscore | None => false end in
      if Ascii.eqb c underscore
      then if prev_digit then drop_underscores (Some c) s' else None
      else if prev_under && negb (is_digit c) then None
      else option_map (cons c) (drop_underscores (Some c) s')
  end.

(** A run of decimal digits: the value accumulated on [acc], the number of
    digits read added to [cnt], and the rest of the input. *)
Fixpoint read_digits (acc cnt : Z) (s : str) : Z * Z * str :=
  match s with
  | [] => (acc, cnt, [])
  | c :: s' =>
      match digit_value c with
      | Some d => read_digits (10 * acc + d) (cnt + 1) s'
      | None => (acc, cnt, s)
      end
  end.

(** An optional sign; [true] is negative. *)
Definition read_sign (s : str) : bool * str :=
  match s with
  | c :: s' =>
      if Ascii.eqb c "-"%char then (true, s')
      else if Ascii.eqb c "+"%char then (false, s')
      else (false, s)
  | [] => (false, [])
  end.

(** The exponent after [e]/[E]: an optional sign and at least one digit. *)
Definition read_exponent (s : str) : option (Z * str) :=
  let '(neg, s1) := read_sign s in
  let '(v, n, s2) := read_digits 0 0 s1 in
  if n =? 0 then None else Some (if neg then - v else v, s2).

(** A decimal number at the head of [s]: sign, digits, optional point and
    digits (at least one digit in all), optional exponent.  An [e] that is
    not followed by an exponent is left unread. *)
Definition read_decimal (s : str) : option (float * str) :=
  let '(neg, s1) := read_sign s in
  let '(ip, ni, s2) := read_digits 0 0 s1 in
  let '(m, nf, s3) :=
    match s2 with
    | c :: t => if Ascii.eqb c "."%char then read_digits ip 0 t else (ip, 0, s2)
    | [] => (ip, 0, s2)
    end in
  if ni + nf =? 0 then None
  else
    let '(e, s4) :=
      match s3 with
      | c :: t =>
          if Ascii.eqb c "e"%char || Ascii.eqb c "E"%char
          then match read_exponent t with
               | Some (e, t') => (e, t')
               | None => (0, s3)
               end
          else (0, s3)
      | [] => (0, s3)
      end in
    Some (float_of_decimal neg m (e - nf), s4).

(** [inf], [infinity] and [nan] in any case, with an optional sign. *)
Definition read_inf_nan (s : str) : option float :=
  let '(neg, s1) := read_sign s in
  let w := lower s1 in
  if list_eq_dec ascii_dec w (lit "inf") then Some (S754_infinity neg)
  else if list_eq_dec ascii_dec w (lit "infinity") then Some (S754_infinity neg)
  else if list_eq_dec ascii_dec w (lit "nan") then Some S754_nan
  else None.

(** [float(s)]; [None] stands for [ValueError]. *)
Definition float_of_str (s : str) : option float :=
  match drop_underscores None (map to_ascii_space s) with
  | None => None
  | Some s1 =>
      let s2 := c_strip s1 in
      match read_decimal s2 with
      | Some (x, []) => Some x
      | Some (_, _ :: _) => None
      | None => read_inf_nan s2
      end
  end.

(** *** [format(x, ".10f")] *)

(** [m * 2^e * 10^10] rounded to the nearest integer, ties to even. *)
Definition scaled_round (m : positive) (e : Z) : Z :=
  if 0 <=? e then Zpos m * 2 ^ e * 10 ^ 10
  else
    let a := Zpos m * 10 ^ 10 in
    let b := 2 ^ (- e) in
    let q := a / b in
    match (2 * (a mod b)) ?= b with
    | Lt => q
    | Gt => q + 1
    | Eq => if Z.even q then q else q + 1
    end.

Definition decimal_digits (n : Z) : str :=
  lit (DecimalString.NilZero.string_of_uint (N.to_uint (Z.to_N n))).

Definition zero_char : ascii := "0"%char.

(** [n / 10^10] written with ten digits after the point. *)
Definition fixed10 (n : Z) : str :=
  let ds := decimal_digits n in
  let ds := repeat zero_char (11 - length ds) ++ ds in
  firstn (length ds - 10) ds ++ "."%char :: skipn (length ds - 10) ds.

Definition sign_str (s : bool) : str := if s then lit "-" else [].

Definition format_10f (x : float) : str :=
  match x with
  | S754_nan => lit "nan"
  | S754_infinity s => sign_str s ++ lit "inf"
  | S754_zero s => sign_str s ++ fixed10 0
  | S754_finite s m e => sign_str s ++ fixed10 (scaled_round m e)
  end.

End Py.

Import Py.

(** ** Configuration *)

(** [int(x)] for a finite float: truncation towards zero. *)
Definition int_of_float (x : float) : Z :=
  match x with
  | S754_finite s m e =>
      let a := if 0 <=? e then Zpos m * 2 ^ e else Zpos m / 2 ^ (- e) in
      if s then - a else a
  | _ => 0
  end.

Definition BOARD_ID : Z := 2.

(** [current_gas_price_wei = int(1.3e6)] initially and after a success. *)
Definition BASE_GAS_PRICE : Z := int_of_float (float_of_decimal false 13 5).

(** [GAS_PRICE_MAX = int(3e6)] *)
Definition GAS_PRICE_MAX : Z := int_of_float (float_of_decimal false 3 6).

(** The increment on timeout, [int(0.3e6)]. *)
Definition GAS_PRICE_STEP : Z := int_of_float (float_of_decimal false 3 5).

(** The gas limit of every transaction, ['gas': 29504000]. *)
Definition GAS_LIMIT : Z := 29504000.

Arguments BASE_GAS_PRICE : simpl never.
Arguments GAS_PRICE_MAX : simpl never.
Arguments GAS_PRICE_STEP : simpl never.
Arguments float_1e18 : simpl never.

Definition TOTAL_TAG : str := lit "TOTAL:".
Definition TOTAL_HEAD : str := lit "TOTAL: ".
Definition BOARD_DATA_MARK : str := lit "<!--BOARD_DATA-->".
Definition BOARD_ID_MARK : str := lit "<!--BOARD_ID-->".
Definition LAST_UPDATE_TIME_MARK : str := lit "<!--LAST_UPDATE_TIME-->".
Definition TIMESTAMP_TAG : str := lit "Timestamp:".
Definition TIMESTAMP_HEAD : str := lit "Timestamp: ".
Definition TIMEOUT_WORD : str := lit "timeout".

(** ** The fee ledger: [update_fee_file] *)

Definition float_zero : float := S754_zero false.

(** Lines 93-101: the running total and the fee entries read from the lines
    of [fee.txt].  A failing [float(...)] leaves the total at [0.0] but
    keeps the entries; a first line without the tag drops both. *)
Definition read_ledger (lines : list str) : float * list str :=
  match lines with
  | l0 :: rest =>
      if startswith TOTAL_TAG l0
      then (match nth_error (split TOTAL_TAG (strip l0)) 1 with
            | Some t => match float_of_str t with
                        | Some x => x
                        | None => float_zero
                        end
            | None => float_zero
            end, rest)
      else (float_zero, [])
  | [] => (float_zero, [])
  end.

(** The content of [fee.txt] after [update_fee_file(new_fee)]; the argument
    is the content before, [None] when the file does not exist (it is then
    created empty). *)
Definition update_fee_file (new_fee : float) (fee_txt : option str) : str :=
  let content := match fee_txt with Some c => c | None => [] end in
  let lines := readlines (universal_newlines content) in
  let '(current_total, fee_entries) := read_ledger lines in
  let new_total := fadd current_total new_fee in
  TOTAL_HEAD ++ format_10f new_total ++ [newline]
    ++ concat fee_entries
    ++ format_10f new_fee ++ [newline].

(** What a reader of [fee.txt] sees, parsing it the way the script does. *)
Definition ledger_of (content : str) : float * list str :=
  read_ledger (readlines (universal_newlines content)).

(** ** Rendering: [generate_html] *)

(** [str(n)] for an [int]. *)
Definition str_of_int (n : Z) : str :=
  lit (DecimalString.NilZero.string_of_int (Z.to_int n)).

(** The three replacements of lines 136-138, in the order of the source. *)
Definition render (template_content board_data_js board_id timestamp : str)
  : str :=
  replace LAST_UPDATE_TIME_MARK timestamp
    (replace BOARD_ID_MARK board_id
       (replace BOARD_DATA_MARK board_data_js template_content)).

(** [template] is the content of [template.html], [None] when reading it
    fails; the result is [None] in that case. *)
Definition generate_html (template : option str) (board_data_js : str)
    (board_id : Z) (timestamp : str) : option str :=
  match template with
  | None => None
  | Some raw =>
      Some (render (universal_newlines raw) board_data_js
              (str_of_int board_id) timestamp)
  end.

(** [json.dumps] of a list of strings (default separators, ASCII only). *)
Definition hex_digit (n : N) : ascii :=
  if (n <? 10)%N then ascii_of_N (48 + n) else ascii_of_N (87 + n).

Definition dquote : ascii := ascii_of_N 34.

Definition json_escape (c : ascii) : str :=
  let n := code c in
  if (n =? 34)%N then ["\"%char; dquote]
  else if (n =? 92)%N then lit "\\"
  else if (n =? 10)%N then lit "\n"
  else if (n =? 13)%N then lit "\r"
  else if (n =? 9)%N then lit "\t"
  else if (n =? 8)%N then lit "\b"
  else if (n =? 12)%N then lit "\f"
  else if ((32 <=? n) && (n <=? 126))%N then [c]
  else lit "\u00" ++ [hex_digit (n / 16); hex_digit (n mod 16)].

Definition json_string (s : str) : str :=
  dquote :: flat_map json_escape s ++ [dquote].

Fixpoint join (sep : str) (l : list str) : str :=
  match l with
  | [] => []
  | [x] => x
  | x :: rest => x ++ sep ++ join sep rest
  end.

Definition json_dumps (l : list str) : str :=
  lit "[" ++ join (lit ", ") (map json_string l) ++ lit "]".

(** ** Submission: [push_to_contract] *)

(** What one RPC endpoint does when it is tried: it is found not connected
    (the test is outside the [try] block and returns a boolean), or the [try]
    block raises, or a receipt comes back. *)
Inductive reply :=
| NotConnected                      (* [w3.is_connected()] is false *)
| Raised (msg : str)                (* the [try] block raises; [msg] is [str(e)] *)
| Receipt (status gasUsed : Z).     (* the receipt arrives within the wait *)

Record endpoint := { url : str; reply_of : reply }.

(** The observable steps of a run, following the messages the script
    prints.  [Attempt] marks the entry into the [try] block for an endpoint:
    a transaction carrying [html] at [gasPrice] is built for it. *)
Inductive event :=
| Skipped (rpc : str)
| Attempt (rpc : str) (html : str) (gasPrice : Z)
| Accepted (rpc : str)
| FeeRecorded (fee_eth : float)
| Rejected (rpc : str)
| TimedOut (rpc : str)
| PriceRaised (gasPrice : Z)
| PriceAtMax
| Errored (rpc : str) (msg : str)
| BoardMissing
| BoardEmpty
| NoTimestampLine
| NoNewUpdate
| Detected (timestamp : str)
| HtmlFailed
| Published (timestamp : str)
| PushFailed (timestamp : str).

(** The globals the submitter works on. *)
Record world := {
  current_gas_price_wei : Z;
  fee_txt : option str      (* content of [fee.txt]; [None]: no such file *)
}.

Definition OVERFLOW_MSG : str := lit "int too large to convert to float".

(** Lines 181-191: the handler of the [try] block. *)
Definition on_exception (rpc msg : str) (w : world) : world * list event :=
  if contains TIMEOUT_WORD (lower msg)
  then if current_gas_price_wei w <? GAS_PRICE_MAX
       then let p := current_gas_price_wei w + GAS_PRICE_STEP in
            ({| current_gas_price_wei := p; fee_txt := fee_txt w |},
             [TimedOut rpc; PriceRaised p])
       else (w, [TimedOut rpc; PriceAtMax])
  else (w, [Errored rpc msg]).

(** Lines 150-192.  The result is the returned boolean, the globals after
    the call and the steps taken. *)
Fixpoint push_to_contract (html : str) (rpcs : list endpoint) (w : world)
  : bool * world * list event :=
  match rpcs with
  | [] => (false, w, [])
  | ep :: rest =>
      let rpc := url ep in
      match reply_of ep with
      | NotConnected =>
          let '(r, w', evs) := push_to_contract html rest w in
          (r, w', Skipped rpc :: evs)
      | Raised msg =>
          let '(w1, evs1) := on_exception rpc msg w in
          let '(r, w', evs) := push_to_contract html rest w1 in
          (r, w', Attempt rpc html (current_gas_price_wei w) :: evs1 ++ evs)
      | Receipt status gasUsed =>
          let gas_wei := current_gas_price_wei w in
          if status =? 1 then
            let fee_wei := gasUsed * gas_wei in
            match int_to_float fee_wei with
            | Some x =>
                let fee_eth := fdiv x float_1e18 in
                (true,
                 {| current_gas_price_wei := BASE_GAS_PRICE;
                    fee_txt := Some (update_fee_file fee_eth (fee_txt w)) |},
                 [Attempt rpc html gas_wei; Accepted rpc; FeeRecorded fee_eth])
            | None =>
                let '(w1, evs1) := on_exception rpc OVERFLOW_MSG w in
                let '(r, w', evs) := push_to_contract html rest w1 in
                (r, w', Attempt rpc html gas_wei :: Accepted rpc :: evs1 ++ evs)
            end
          else
            let '(r, w', evs) := push_to_contract html rest w in
            (r, w', Attempt rpc html gas_wei :: Rejected rpc :: evs)
      end
  end.

(** ** The publish loop: [main_loop] *)

(** What one pass of the [while] loop finds outside the process. *)
Record cycle_input := {
  board_txt : option str;       (* content of the board file; [None]: missing *)
  template_html : option str;   (* content of [template.html]; [None]: unreadable *)
  rpcs : list endpoint          (* [RPC_URLS] with the reply of each endpoint *)
}.

Record loop_state := {
  last_timestamp : option str;
  globals : world
}.

(** [last_timestamp is not None and current_timestamp == last_timestamp] *)
Definition same_timestamp (last : option str) (current : str) : bool :=
  match last with
  | Some t => if list_eq_dec ascii_dec current t then true else false
  | None => false
  end.

(** [lines[-1]] of a non-empty list. *)
Definition last_line (lines : list str) : option str :=
  match lines with
  | [] => None
  | _ :: _ => Some (last lines [])
  end.

(** [timestamp_line.replace("Timestamp: ", "").strip()] *)
Definition clock_of (timestamp_line : str) : str :=
  strip (replace TIMESTAMP_HEAD [] timestamp_line).

(** What the first half of a pass (lines 201-235) decides: either the pass
    ends at once with the steps logged, or [html] is to be pushed for the
    update stamped [timestamp]. *)
Inductive decision :=
| Idle (evs : list event)
| Submit (timestamp html : str).

Definition prepare (inp : cycle_input) (last : option str) : decision :=
  match board_txt inp with
  | None => Idle [BoardMissing]
  | Some raw =>
      let lines := splitlines (universal_newlines raw) in
      match last_line lines with
      | None => Idle [BoardEmpty]
      | Some timestamp_line =>
          if negb (startswith TIMESTAMP_TAG timestamp_line)
          then Idle [NoTimestampLine]
          else
            let current_timestamp := clock_of timestamp_line in
            if same_timestamp last current_timestamp
            then Idle [NoNewUpdate]
            else
              let board_data_lines := removelast lines in
              let board_data_js := json_dumps board_data_lines in
              match generate_html (template_html inp) board_data_js BOARD_ID
                      current_timestamp with
              | None => Idle [Detected current_timestamp; HtmlFailed]
              | Some html => Submit current_timestamp html
              end
      end
  end.

(** Lines 201-248: one pass of the loop body. *)
Definition cycle (inp : cycle_input) (st : loop_state)
  : loop_state * list event :=
  match prepare inp (last_timestamp st) with
  | Idle evs => (st, evs)
  | Submit current_timestamp html =>
      let '(ok, w', evs) := push_to_contract html (rpcs inp) (globals st) in
      if ok
      then ({| last_timestamp := Some current_timestamp; globals := w' |},
            Detected current_timestamp :: evs ++ [Published current_timestamp])
      else ({| last_timestamp := last_timestamp st; globals := w' |},
            Detected current_timestamp :: evs ++ [PushFailed current_timestamp])
  end.

(** The loop over the passes whose inputs are given, oldest first. *)
Fixpoint main_loop (inputs : list cycle_input) (st : loop_state)
  : loop_state * list event :=
  match inputs with
  | [] => (st, [])
  | inp :: rest =>
      let '(st1, evs1) := cycle inp st in
      let '(st2, evs2) := main_loop rest st1 in
      (st2, evs1 ++ evs2)
  end.

(** The state in which [main_loop] starts, given the ledger file found. *)
Definition initial_state (fee : option str) : loop_state :=
  {| last_timestamp := None;
     globals := {| current_gas_price_wei := BASE_GAS_PRICE; fee_txt := fee |} |}.

(** ** Vocabulary of the specification *)

(** The Escalate transition of the gas price controller: one step up while
    the price is below the maximum, otherwise hold. *)
Definition escalate (p : Z) : Z :=
  if p <? GAS_PRICE_MAX then p + GAS_PRICE_STEP else p.

Definition set_price (p : Z) (w : world) : world :=
  {| current_gas_price_wei := p; fee_txt := fee_txt w |}.

(** The attempt raised an exception whose message mentions a timeout. *)
Definition is_timeout (ep : endpoint) : bool :=
  match reply_of ep with
  | Raised msg => contains TIMEOUT_WORD (lower msg)
  | _ => false
  end.

(** The endpoint answers with an accepted receipt ([status == 1]). *)
Definition accepts (ep : endpoint) : bool :=
  match reply_of ep with
  | Receipt status _ => status =? 1
  | _ => false
  end.

Definition connected (ep : endpoint) : bool :=
  match reply_of ep with
  | NotConnected => false
  | _ => true
  end.

(** The attempt made at price [p] reaches [return True]: the receipt is
    accepted and the fee can be computed. *)
Definition confirms (p : Z) (ep : endpoint) : bool :=
  match reply_of ep with
  | Receipt status gasUsed =>
      (status =? 1) &&
      match int_to_float (gasUsed * p) with Some _ => true | None => false end
  | _ => false
  end.

(** A receipt cannot report more gas than the transaction was given. *)
Definition receipt_in_limit (ep : endpoint) : Prop :=
  match reply_of ep with
  | Receipt _ gasUsed => 0 <= gasUsed <= GAS_LIMIT
  | _ => True
  end.

(** The prices the worker can hold: from the base price up to less than one
    step above the maximum. *)
Definition price_in_range (p : Z) : Prop :=
  BASE_GAS_PRICE <= p < GAS_PRICE_MAX + GAS_PRICE_STEP.

(** The endpoints up to and including the first one that accepts. *)
Fixpoint upto_first_accept (l : list endpoint) : list endpoint :=
  match l with
  | [] => []
  | ep :: rest => if accepts ep then [ep] else ep :: upto_first_accept rest
  end.

(** The price after the attempts on [l], none of which succeeded. *)
Definition price_after (l : list endpoint) (p : Z) : Z :=
  fold_left (fun q ep => if is_timeout ep then escalate q else q) l p.

(** The endpoints the log shows as reached, and those a transaction was
    attempted on, in the order of the log. *)
Definition visited (evs : list event) : list str :=
  flat_map (fun e => match e with
                     | Skipped r => [r]
                     | Attempt r _ _ => [r]
                     | _ => []
                     end) evs.

Definition attempted (evs : list event) : list str :=
  flat_map (fun e => match e with
                     | Attempt r _ _ => [r]
                     | _ => []
                     end) evs.

(** The fees the log shows as recorded. *)
Definition fees_recorded (evs : list event) : list float :=
  flat_map (fun e => match e with
                     | FeeRecorded f => [f]
                     | _ => []
                     end) evs.

(** The timestamp of the most recent [Published] step, starting from [last]. *)
Fixpoint last_published (last : option str) (evs : list event) : option str :=
  match evs with
  | [] => last
  | Published c :: rest => last_published (Some c) rest
  | _ :: rest => last_published last rest
  end.

(** The exact value of a finite float [x] is [n / d] ([0 < d]). *)
Definition float_is_ratio (x : float) (n d : Z) : bool :=
  match x with
  | S754_zero _ => n =? 0
  | S754_finite s m e =>
      let v := if s then Zneg m else Zpos m in
      if 0 <=? e then v * 2 ^ e * d =? n else v * d =? n * 2 ^ (- e)
  | _ => false
  end.

(** The three components of the result of [push_to_contract]. *)
Definition returned (r : bool * world * list event) : bool := fst (fst r).
Definition world_after (r : bool * world * list event) : world := snd (fst r).
Definition log_of (r : bool * world * list event) : list event := snd r.

(** An endpoint whose [try] block raises an exception that names a timeout
    in its message, and one that is down. *)
Definition timing_out (rpc : str) : endpoint :=
  {| url := rpc; reply_of := Raised (lit "Timeout waiting for receipt") |}.

Definition unreachable (rpc : str) : endpoint :=
  {| url := rpc; reply_of := NotConnected |}.

Definition accepting (rpc : str) (gasUsed : Z) : endpoint :=
  {| url := rpc; reply_of := Receipt 1 gasUsed |}.

(** A line that ends with LF. *)
Definition terminated (l : str) : Prop :=
  Ascii.eqb (last l space) newline = true.

(** [float(s)] with the fallback of line 97. *)
Definition float_or_zero (s : str) : float :=
  match float_of_str s with
  | Some x => x
  | None => float_zero
  end.

(** The float rounded to ten decimals (ties to even) and back to binary64:
    what [float] returns on [format(x, ".10f")]. *)
Definition round10 (x : float) : float :=
  match x with
  | S754_finite s m e => float_of_decimal s (scaled_round m e) (-10)
  | _ => x
  end.

(** The number a run of decimal digits spells. *)
Definition digit (c : ascii) : Z :=
  match digit_value c with Some d => d | None => 0 end.

Definition digits_value (acc : Z) (ds : str) : Z :=
  fold_left (fun a c => 10 * a + digit c) ds acc.

(** The characters [format(x, ".10f")] can produce. *)
Definition fmt_char (c : ascii) : bool :=
  is_digit c || existsb (Ascii.eqb c) (lit ".-nainf").

(** The literal [5.0]. *)
Definition float_five : float := float_of_decimal false 50 (-1).

(** A ledger holding a total of zero and no entry, as the script writes it. *)
Definition zero_ledger : str := TOTAL_HEAD ++ format_10f float_zero ++ [newline].

(** The three markers of the template, and a template cut into the text
    between markers and the markers themselves. *)
Inductive marker := DATA | ID | TIME.

Definition mark (k : marker) : str :=
  match k with
  | DATA => BOARD_DATA_MARK
  | ID => BOARD_ID_MARK
  | TIME => LAST_UPDATE_TIME_MARK
  end.

Inductive piece :=
| Text (s : str)
| Mark (k : marker).

Definition flatten (ps : list piece) : str :=
  flat_map (fun p => match p with Text s => s | Mark k => mark k end) ps.

(** The values put in place of the markers. *)
Definition values (board_data_js board_id timestamp : str) (k : marker) : str :=
  match k with
  | DATA => board_data_js
  | ID => board_id
  | TIME => timestamp
  end.

(** Every marker of the template replaced by its value, all at once. *)
Definition subst_all (val : marker -> str) (ps : list piece) : str :=
  flat_map (fun p => match p with Text s => s | Mark k => val k end) ps.

(** The replacements of [generate_html] applied in a given order. *)
Definition replace_in_order (order : list marker) (val : marker -> str)
    (s : str) : str :=
  fold_left (fun acc k => replace (mark k) (val k) acc) order s.

(** [m] and [s] differ at some position that both have: neither is a prefix
    of the other. *)
Fixpoint diverges (m s : str) : bool :=
  match m, s with
  | a :: m', b :: s' => if Ascii.eqb a b then diverges m' s' else true
  | _, _ => false
  end.

(** No marker starts inside [s], not even one that would be completed by
    the text that follows [s]. *)
Fixpoint marker_safe (s : str) : bool :=
  match s with
  | [] => true
  | _ :: s' =>
      diverges (mark DATA) s && diverges (mark ID) s && diverges (mark TIME) s
      && marker_safe s'
  end.

Definition safe_piece (p : piece) : Prop :=
  match p with
  | Text s => marker_safe s = true
  | Mark _ => True
  end.

(** The reading of the specification under which a marker is replaced at
    most once: [s.replace(old, new, 1)], for a non-empty [old]. *)
Fixpoint replace_first (old new s : str) : str :=
  match s with
  | [] => []
  | c :: s' =>
      if startswith old s then new ++ skipn (length old) s
      else c :: replace_first old new s'
  end.

Definition render_once (template_content board_data_js board_id timestamp : str)
  : str :=
  replace_first LAST_UPDATE_TIME_MARK timestamp
    (replace_first BOARD_ID_MARK board_id
       (replace_first BOARD_DATA_MARK board_data_js template_content)).

Definition marker_eqb (j k : marker) : bool :=
  match j, k with
  | DATA, DATA | ID, ID | TIME, TIME => true
  | _, _ => false
  end.

(** One replacement seen on the pieces: the marker [k] becomes the text [v]. *)
Definition subst_one (k : marker) (v : str) (p : piece) : piece :=
  match p with
  | Mark j => if marker_eqb j k then Text v else Mark j
  | Text s => Text s
  end.

(** The end-to-end scenario of the specification: the board holds the
    lines A, B and the timestamp t1; endpoint A is down, two endpoints time
    out, and the next one accepts. *)
Definition demo_rpcs : list endpoint :=
  [unreachable (lit "A"); timing_out (lit "B"); timing_out (lit "C");
   accepting (lit "D") 21000].

Definition demo_input : cycle_input :=
  {| board_txt := Some (lit "A" ++ newline :: lit "B" ++ newline
                          :: lit "Timestamp: t1" ++ [newline]);
     template_html :=
       Some (lit "<script>var b = <!--BOARD_DATA-->;</script><p><!--BOARD_ID--> at <!--LAST_UPDATE_TIME--></p>");
     rpcs := demo_rpcs |}.

(** The prices the worker moves through: the base price and up to six steps
    above it. *)
Definition on_ladder (p : Z) : Prop :=
  exists k, 0 <= k <= 6 /\ p = BASE_GAS_PRICE + k * GAS_PRICE_STEP.

(** The gas prices of the attempts the log shows, in the order of the log. *)
Definition attempt_prices (evs : list event) : list Z :=
  flat_map (fun e => match e with
                     | Attempt _ _ p => [p]
                     | _ => []
                     end) evs.

(** The timestamps the log shows as published, in the order of the log. *)
Definition publishes (evs : list event) : list str :=
  flat_map (fun e => match e with
                     | Published c => [c]
                     | _ => []
                     end) evs.

(** No element of [l] repeats the one just before it, [prev] coming before
    the first. *)
Fixpoint no_repeat (prev : option str) (l : list str) : Prop :=
  match l with
  | [] => True
  | c :: rest => prev <> Some c /\ no_repeat (Some c) rest
  end.

(** The ledger as the script reads it from [fee.txt], missing or not. *)
Definition ledger_of_file (file : option str) : float * list str :=
  ledger_of (match file with Some c => c | None => [] end).

(** The line [update_fee_file] writes for a fee. *)
Definition entry_line (f : float) : str := format_10f f ++ [newline].

(** A file as [update_fee_file] leaves it: the header for [t] and one line
    for each of the fees [fs]. *)
Definition written_ledger (t : float) (fs : list float) : str :=
  TOTAL_HEAD ++ format_10f t ++ [newline] ++ concat (map entry_line fs).

(** [update_fee_file] called for each of [fees] in turn. *)
Definition record_all (fees : list float) (file : option str) : option str :=
  fold_left (fun file f => Some (update_fee_file f file)) fees file.

(** The total a reader finds after one more fee: the sum, rounded to the ten
    decimals it is written with. *)
Definition add_rounded (t f : float) : float := round10 (fadd t f).

(** A board file written one line after the other, each closed by LF. *)
Definition board_file (lines : list str) : str :=
  concat (map (fun l => l ++ [newline]) lines).

(** A line that holds no line boundary. *)
Definition plain_line (l : str) : Prop :=
  forallb (fun c => negb (is_linebreak c)) l = true.

(** A transaction hash as [HexBytes] prints it: two lower-case hexadecimal
    digits for each byte. *)
Definition hex_of_bytes (bs : str) : str :=
  flat_map (fun b => [hex_digit (code b / 16); hex_digit (code b mod 16)]) bs.

(** [str(e)] of the [TimeExhausted] that web3's
    [wait_for_transaction_receipt] raises when the wait of line 169
    ([timeout=60]) runs out with the transaction still pending. *)
Definition TIME_EXHAUSTED_MSG (tx_hash : str) : str :=
  lit "Transaction HexBytes('0x" ++ hex_of_bytes tx_hash
    ++ lit "') is not in the chain after 60 seconds".

(** An endpoint on which the transaction is sent and stays pending for the
    whole wait. *)
Definition pending (rpc tx_hash : str) : endpoint :=
  {| url := rpc; reply_of := Raised (TIME_EXHAUSTED_MSG tx_hash) |}.

Definition tab : ascii := "009"%char.

(** * Properties *)

(** ** The configuration constants *)

Lemma BASE_GAS_PRICE_value : BASE_GAS_PRICE = 1300000.
Proof. vm_compute. reflexivity. Qed.

Lemma GAS_PRICE_MAX_value : GAS_PRICE_MAX = 3000000.
Proof. vm_compute. reflexivity. Qed.

Lemma GAS_PRICE_STEP_value : GAS_PRICE_STEP = 300000.
Proof. vm_compute. reflexivity. Qed.

(** ** The gas price controller *)

Lemma escalate_ge p : p <= escalate p.
Proof.
  unfold escalate. rewrite GAS_PRICE_STEP_value.
  destruct (p <? GAS_PRICE_MAX); lia.
Qed.

Lemma escalate_below_max p :
  p < GAS_PRICE_MAX -> escalate p = p + GAS_PRICE_STEP.
Proof.
  intros H. unfold escalate.
  destruct (Z.ltb_spec p GAS_PRICE_MAX); [reflexivity | lia].
Qed.

Lemma escalate_at_max p : GAS_PRICE_MAX <= p -> escalate p = p.
Proof.
  intros H. unfold escalate.
  destruct (Z.ltb_spec p GAS_PRICE_MAX); [lia | reflexivity].
Qed.

Lemma escalate_in_range p : price_in_range p -> price_in_range (escalate p).
Proof.
  unfold price_in_range, escalate.
  rewrite BASE_GAS_PRICE_value, GAS_PRICE_MAX_value, GAS_PRICE_STEP_value.
  intros H. destruct (Z.ltb_spec p 3000000); lia.
Qed.

Lemma world_eta w : set_price (current_gas_price_wei w) w = w.
Proof. destruct w; reflexivity. Qed.

(** The handler escalates exactly when the message mentions a timeout. *)
Lemma on_exception_world rpc msg w :
  fst (on_exception rpc msg w)
  = set_price (if contains TIMEOUT_WORD (lower msg)
               then escalate (current_gas_price_wei w)
               else current_gas_price_wei w) w.
Proof.
  unfold on_exception, escalate.
  destruct (contains TIMEOUT_WORD (lower msg)).
  - destruct (current_gas_price_wei w <? GAS_PRICE_MAX); simpl.
    + reflexivity.
    + symmetry. apply world_eta.
  - simpl. symmetry. apply world_eta.
Qed.

Lemma on_exception_timed_out rpc msg w :
  In (TimedOut rpc) (snd (on_exception rpc msg w))
  <-> contains TIMEOUT_WORD (lower msg) = true.
Proof.
  unfold on_exception.
  destruct (contains TIMEOUT_WORD (lower msg)).
  - destruct (current_gas_price_wei w <? GAS_PRICE_MAX); simpl; tauto.
  - simpl. split; [intros [H | []]; discriminate H | discriminate].
Qed.

Lemma overflow_is_no_timeout : contains TIMEOUT_WORD (lower OVERFLOW_MSG) = false.
Proof. vm_compute. reflexivity. Qed.

(** ** The submitter, one endpoint at a time *)

(** An attempt that confirms ends the call: the fee is recorded, the price
    is back at the base, and no further endpoint is looked at. *)
Lemma push_cons_confirms html ep rest w :
  confirms (current_gas_price_wei w) ep = true ->
  exists gasUsed x,
    reply_of ep = Receipt 1 gasUsed /\
    int_to_float (gasUsed * current_gas_price_wei w) = Some x /\
    push_to_contract html (ep :: rest) w
    = (true,
       {| current_gas_price_wei := BASE_GAS_PRICE;
          fee_txt := Some (update_fee_file (fdiv x float_1e18) (fee_txt w)) |},
       [Attempt (url ep) html (current_gas_price_wei w); Accepted (url ep);
        FeeRecorded (fdiv x float_1e18)]).
Proof.
  unfold confirms. simpl.
  destruct (reply_of ep) as [ | msg | status gasUsed]; try discriminate.
  destruct (Z.eqb_spec status 1) as [-> | ]; [ | discriminate ].
  simpl.
  destruct (int_to_float (gasUsed * current_gas_price_wei w)) as [x | ] eqn:E;
    [ | discriminate ].
  intros _. exists gasUsed, x. repeat split. exact E.
Qed.

(** An attempt that does not confirm hands over to the remaining endpoints;
    the price has moved, by one Escalate, exactly when the attempt raised a
    timeout. *)
Lemma push_cons_continue html ep rest w :
  confirms (current_gas_price_wei w) ep = false ->
  exists evs1,
    visited evs1 = [url ep] /\
    attempted evs1 = (if connected ep then [url ep] else []) /\
    fees_recorded evs1 = [] /\
    (In (TimedOut (url ep)) evs1 <-> is_timeout ep = true) /\
    forall r w' evs,
      push_to_contract html rest
        (set_price (if is_timeout ep
                    then escalate (current_gas_price_wei w)
                    else current_gas_price_wei w) w) = (r, w', evs) ->
      push_to_contract html (ep :: rest) w = (r, w', evs1 ++ evs).
Proof.
  unfold confirms, is_timeout, connected. simpl.
  destruct (reply_of ep) as [ | msg | status gasUsed].
  - intros _. exists [Skipped (url ep)]. repeat split; try discriminate.
    + intros [H | []]; discriminate H.
    + intros r w' evs. rewrite world_eta. intros ->. reflexivity.
  - intros _.
    pose proof (on_exception_world (url ep) msg w) as Hw.
    pose proof (on_exception_timed_out (url ep) msg w) as Ht.
    destruct (on_exception (url ep) msg w) as [w1 evs1] eqn:E.
    simpl in Hw, Ht. subst w1.
    exists (Attempt (url ep) html (current_gas_price_wei w) :: evs1).
    assert (Hshape : visited evs1 = [] /\ attempted evs1 = []
                     /\ fees_recorded evs1 = []).
    { unfold on_exception in E.
      destruct (contains TIMEOUT_WORD (lower msg));
        [ destruct (current_gas_price_wei w <? GAS_PRICE_MAX) | ];
        inversion E; subst; repeat split. }
    destruct Hshape as (Hv & Ha & Hf).
    repeat split.
    + simpl. rewrite Hv. reflexivity.
    + simpl. rewrite Ha. reflexivity.
    + simpl. exact Hf.
    + intros [H | H]; [discriminate H | apply Ht, H].
    + intros H. right. apply Ht, H.
    + intros r w' evs ->. reflexivity.
  - destruct (Z.eqb_spec status 1) as [-> | Hs]; simpl.
    + destruct (int_to_float (gasUsed * current_gas_price_wei w));
        [ discriminate | ].
      intros _.
      exists [Attempt (url ep) html (current_gas_price_wei w);
              Accepted (url ep); Errored (url ep) OVERFLOW_MSG].
      repeat split; try discriminate.
      * intros [H | [H | [H | []]]]; discriminate H.
      * intros r w' evs. rewrite world_eta. intros ->. reflexivity.
    + intros _.
      exists [Attempt (url ep) html (current_gas_price_wei w);
              Rejected (url ep)].
      repeat split; try discriminate.
      * intros [H | [H | []]]; discriminate H.
      * intros r w' evs. rewrite world_eta. intros ->. reflexivity.
Qed.

(** Within the gas limit and the price range the fee is always computable:
    an accepted receipt confirms. *)
Lemma fee_convertible gasUsed p :
  0 <= gasUsed <= GAS_LIMIT -> price_in_range p ->
  exists x, int_to_float (gasUsed * p) = Some x.
Proof.
  unfold price_in_range, GAS_LIMIT, int_to_float.
  rewrite BASE_GAS_PRICE_value, GAS_PRICE_MAX_value, GAS_PRICE_STEP_value.
  intros Hg Hp.
  assert (Hb : Z.abs (gasUsed * p) < 2 ^ 1024 - 2 ^ 970).
  { assert (Z.abs (gasUsed * p) <= 29504000 * 3300000) by nia.
    assert (29504000 * 3300000 < 2 ^ 1024 - 2 ^ 970)
      by (vm_compute; reflexivity).
    lia. }
  apply Z.ltb_lt in Hb. rewrite Hb. eexists. reflexivity.
Qed.

Lemma confirms_accepts p ep :
  receipt_in_limit ep -> price_in_range p -> confirms p ep = accepts ep.
Proof.
  unfold receipt_in_limit, confirms, accepts.
  destruct (reply_of ep) as [ | msg | status gasUsed]; try reflexivity.
  intros Hg Hp. destruct (fee_convertible gasUsed p Hg Hp) as [x ->].
  apply andb_true_r.
Qed.

(** ** The submitter, over the whole endpoint list *)

Lemma visited_app a b : visited (a ++ b) = visited a ++ visited b.
Proof. apply flat_map_app. Qed.

Lemma attempted_app a b : attempted (a ++ b) = attempted a ++ attempted b.
Proof. apply flat_map_app. Qed.

Lemma fees_recorded_app a b :
  fees_recorded (a ++ b) = fees_recorded a ++ fees_recorded b.
Proof. apply flat_map_app. Qed.

Lemma accepts_connected ep : accepts ep = true -> connected ep = true.
Proof.
  unfold accepts, connected. destruct (reply_of ep); [discriminate | | ]; reflexivity.
Qed.

Lemma upto_first_accept_all l :
  existsb accepts l = false -> upto_first_accept l = l.
Proof.
  induction l as [ | ep l IH]; simpl; [reflexivity | ].
  destruct (accepts ep); simpl; [discriminate | ].
  intros H. rewrite IH by exact H. reflexivity.
Qed.

(** The price stays in its range across a call, whatever the endpoints do. *)
Lemma push_price_in_range html rpcs : forall w,
  price_in_range (current_gas_price_wei w) ->
  price_in_range (current_gas_price_wei (world_after (push_to_contract html rpcs w))).
Proof.
  induction rpcs as [ | ep rest IH]; intros w Hp; [exact Hp | ].
  destruct (confirms (current_gas_price_wei w) ep) eqn:Ec.
  - destruct (push_cons_confirms html ep rest w Ec) as (g & x & _ & _ & ->).
    unfold world_after, price_in_range. cbn [fst snd current_gas_price_wei].
    rewrite BASE_GAS_PRICE_value, GAS_PRICE_MAX_value, GAS_PRICE_STEP_value. lia.
  - destruct (push_cons_continue html ep rest w Ec) as (evs1 & _ & _ & _ & _ & Hk).
    set (w2 := set_price (if is_timeout ep
                          then escalate (current_gas_price_wei w)
                          else current_gas_price_wei w) w) in *.
    assert (Hp2 : price_in_range (current_gas_price_wei w2)).
    { unfold w2. simpl. destruct (is_timeout ep);
        [apply escalate_in_range | ]; exact Hp. }
    specialize (IH w2 Hp2).
    destruct (push_to_contract html rest w2) as [[r w'] evs] eqn:E.
    rewrite (Hk r w' evs eq_refl). exact IH.
Qed.

(** A successful call leaves the base price; a failed one leaves the price
    escalated once per timeout. *)
Lemma push_price html rpcs : forall w,
  current_gas_price_wei (world_after (push_to_contract html rpcs w))
  = if returned (push_to_contract html rpcs w)
    then BASE_GAS_PRICE
    else price_after rpcs (current_gas_price_wei w).
Proof.
  induction rpcs as [ | ep rest IH]; intros w; [reflexivity | ].
  destruct (confirms (current_gas_price_wei w) ep) eqn:Ec.
  - destruct (push_cons_confirms html ep rest w Ec) as (g & x & _ & _ & ->).
    reflexivity.
  - destruct (push_cons_continue html ep rest w Ec) as (evs1 & _ & _ & _ & _ & Hk).
    set (w2 := set_price (if is_timeout ep
                          then escalate (current_gas_price_wei w)
                          else current_gas_price_wei w) w) in *.
    specialize (IH w2).
    destruct (push_to_contract html rest w2) as [[r w'] evs] eqn:E.
    rewrite (Hk r w' evs eq_refl). exact IH.
Qed.

Lemma price_after_ge l : forall p, p <= price_after l p.
Proof.
  induction l as [ | ep l IH]; intros p; simpl; [lia | ].
  unfold price_after in *. simpl.
  destruct (is_timeout ep).
  - pose proof (escalate_ge p). specialize (IH (escalate p)). lia.
  - apply IH.
Qed.

Lemma price_after_timeouts l : forall p,
  forallb is_timeout l = true ->
  price_after l p = Nat.iter (length l) escalate p.
Proof.
  induction l as [ | ep l IH]; intros p H; [reflexivity | ].
  simpl in H. apply andb_true_iff in H as [H1 H2].
  unfold price_after in *. simpl fold_left. rewrite H1, IH by exact H2.
  simpl length. symmetry. apply Nat.iter_succ_r.
Qed.

(** C2 (the code departs from the claim).  The gas price never goes down
    while timeouts follow one another, goes up by exactly one step while it
    is below the maximum and is back at the base after a success
    ([escalate_ge], [escalate_below_max], [push_price]); but it does not stay
    within [GAS_PRICE_MAX]: from the base price 1 300 000, six consecutive
    timeouts in one call leave the price at 3 100 000, above the maximum of
    3 000 000, and a seventh timeout holds it there. *)
Theorem six_timeouts_exceed_max :
  let w0 := globals (initial_state None) in
  let r6 := push_to_contract [] (repeat (timing_out (lit "rpc")) 6) w0 in
  let r7 := push_to_contract [] (repeat (timing_out (lit "rpc")) 7) w0 in
  returned r6 = false /\
  current_gas_price_wei (world_after r6) = 3100000 /\
  GAS_PRICE_MAX < current_gas_price_wei (world_after r6) /\
  current_gas_price_wei (world_after r7) = 3100000.
Proof. vm_compute. repeat split. Qed.

(** C5.  For every endpoint list (receipts within the gas limit, price in
    its range) the submitter goes through the endpoints in the order given,
    up to and including the first one that accepts and no further; it
    attempts a transaction on exactly the connected ones among them, skipping
    the others; it returns success exactly when some endpoint accepts, and
    when none does it has gone through the whole list. *)
Theorem endpoints_tried_in_order_until_first_success html rpcs : forall w,
  Forall receipt_in_limit rpcs ->
  price_in_range (current_gas_price_wei w) ->
  let r := push_to_contract html rpcs w in
  visited (log_of r) = map url (upto_first_accept rpcs) /\
  attempted (log_of r) = map url (filter connected (upto_first_accept rpcs)) /\
  returned r = existsb accepts rpcs /\
  (returned r = false -> visited (log_of r) = map url rpcs).
Proof.
  induction rpcs as [ | ep rest IH]; intros w Hg Hp.
  - simpl. repeat split.
  - inversion Hg as [ | ? ? Hep Hrest]; subst.
    assert (Hall : forall r : bool * world * list event,
               visited (log_of r) = map url (upto_first_accept (ep :: rest)) ->
               returned r = existsb accepts (ep :: rest) ->
               returned r = false -> visited (log_of r) = map url (ep :: rest)).
    { intros r Hv Hr Hf. rewrite Hv, upto_first_accept_all; [reflexivity | ].
      rewrite <- Hr. exact Hf. }
    pose proof (confirms_accepts _ ep Hep Hp) as Hca.
    destruct (confirms (current_gas_price_wei w) ep) eqn:Ec.
    + destruct (push_cons_confirms html ep rest w Ec) as (g & x & _ & _ & E).
      cbv zeta. rewrite E. unfold log_of, returned. simpl.
      rewrite <- Hca. simpl.
      rewrite (accepts_connected ep) by (symmetry; exact Hca).
      repeat split. discriminate.
    + destruct (push_cons_continue html ep rest w Ec)
        as (evs1 & Hv & Ha & _ & _ & Hk).
      set (w2 := set_price (if is_timeout ep
                            then escalate (current_gas_price_wei w)
                            else current_gas_price_wei w) w) in *.
      assert (Hp2 : price_in_range (current_gas_price_wei w2)).
      { unfold w2. simpl. destruct (is_timeout ep);
          [apply escalate_in_range | ]; exact Hp. }
      destruct (IH w2 Hrest Hp2) as (IHv & IHa & IHr & _).
      destruct (push_to_contract html rest w2) as [[r w'] evs] eqn:E.
      cbv zeta. rewrite (Hk r w' evs eq_refl).
      unfold log_of, returned in *. cbn [fst snd] in *.
      assert (Hv' : visited (evs1 ++ evs)
                    = map url (upto_first_accept (ep :: rest))).
      { rewrite visited_app, Hv, IHv. simpl. rewrite <- Hca. reflexivity. }
      assert (Hr' : r = existsb accepts (ep :: rest)).
      { simpl. rewrite <- Hca. exact IHr. }
      split; [exact Hv' | ]. split; [ | split; [exact Hr' | ] ].
      * rewrite attempted_app, Ha, IHa. simpl. rewrite <- Hca. simpl.
        destruct (connected ep); reflexivity.
      * intros Hf. apply (Hall (r, w', evs1 ++ evs) Hv' Hr' Hf).
Qed.

(** The endpoint list [A; B; C] of the specification: A is down, B accepts. *)
Lemma endpoints_tried_in_order_until_first_success_witness :
  let rpcs := [unreachable (lit "A"); accepting (lit "B") 21000;
               accepting (lit "C") 21000] in
  let r := push_to_contract [] rpcs (globals (initial_state None)) in
  visited (log_of r) = map url (upto_first_accept rpcs) /\
  attempted (log_of r) = map url (filter connected (upto_first_accept rpcs)) /\
  returned r = existsb accepts rpcs /\
  (returned r = false -> visited (log_of r) = map url rpcs).
Proof.
  apply (endpoints_tried_in_order_until_first_success []
           [unreachable (lit "A"); accepting (lit "B") 21000;
            accepting (lit "C") 21000]
           (globals (initial_state None))).
  - repeat constructor; unfold receipt_in_limit, GAS_LIMIT; simpl; lia.
  - vm_compute. split; [discriminate | reflexivity].
Defined.

(** An endpoint that is not connected and an attempt that raises an error
    without the word "timeout" both leave the gas price where it was,
    although one Escalate from that price would have raised it. *)
Lemma unreachable_endpoint_does_not_escalate :
  let w0 := globals (initial_state None) in
  let down := push_to_contract [] [unreachable (lit "A")] w0 in
  let refused :=
    push_to_contract []
      [{| url := lit "A"; reply_of := Raised (lit "Connection refused") |}] w0 in
  escalate (current_gas_price_wei w0) = 1600000 /\
  current_gas_price_wei (world_after down) = 1300000 /\
  log_of down = [Skipped (lit "A")] /\
  current_gas_price_wei (world_after refused) = 1300000.
Proof. vm_compute. repeat split. Qed.

(** What the handler of lines 181-191 tests.  An attempt that does not end
    the call in success is followed by the remaining endpoints, and the gas
    price they start from has gone through one Escalate exactly when the
    attempt raised an exception whose message contains "timeout" (in any
    case); the timeout is logged exactly in that case. *)
Lemma escalation_follows_the_message html ep rest w :
  let p := current_gas_price_wei w in
  if confirms p ep
  then returned (push_to_contract html (ep :: rest) w) = true
  else
    exists evs1,
      (In (TimedOut (url ep)) evs1 <-> is_timeout ep = true) /\
      push_to_contract html (ep :: rest) w
      = let '(r, w', evs) :=
          push_to_contract html rest
            (set_price (if is_timeout ep then escalate p else p) w) in
        (r, w', evs1 ++ evs).
Proof.
  cbv zeta.
  destruct (confirms (current_gas_price_wei w) ep) eqn:Ec.
  - destruct (push_cons_confirms html ep rest w Ec) as (g & x & _ & _ & ->).
    reflexivity.
  - destruct (push_cons_continue html ep rest w Ec)
      as (evs1 & _ & _ & _ & Ht & Hk).
    exists evs1. split; [exact Ht | ].
    destruct (push_to_contract html rest _) as [[r w'] evs] eqn:E.
    apply Hk. reflexivity.
Qed.

Lemma contains_skip sub c s :
  startswith sub (c :: s) = false -> contains sub (c :: s) = contains sub s.
Proof. intros H. cbn [contains]. rewrite H. reflexivity. Qed.

(** No hexadecimal digit can start the word "timeout". *)
Lemma hex_digits_start_no_timeout b :
  (forall s,
      startswith TIMEOUT_WORD (lower_char (hex_digit (code b / 16)) :: s) = false) /\
  (forall s,
      startswith TIMEOUT_WORD (lower_char (hex_digit (code b mod 16)) :: s) = false).
Proof.
  destruct b as [[] [] [] [] [] [] [] []]; split; intros s; reflexivity.
Qed.

Lemma no_timeout_word_in_hex bs tail :
  contains TIMEOUT_WORD (lower (hex_of_bytes bs) ++ tail)
  = contains TIMEOUT_WORD tail.
Proof.
  induction bs as [ | b bs IH]; [reflexivity | ].
  change (lower (hex_of_bytes (b :: bs)) ++ tail)
    with (lower_char (hex_digit (code b / 16))
            :: lower_char (hex_digit (code b mod 16))
            :: (lower (hex_of_bytes bs) ++ tail)).
  destruct (hex_digits_start_no_timeout b) as [Hhi Hlo].
  rewrite (contains_skip _ _ _ (Hhi _)), (contains_skip _ _ _ (Hlo _)).
  exact IH.
Qed.

(** The message of [TimeExhausted] does not hold the word the handler looks
    for, whatever the transaction hash. *)
Lemma time_exhausted_lacks_timeout_word tx_hash :
  contains TIMEOUT_WORD (lower (TIME_EXHAUSTED_MSG tx_hash)) = false.
Proof.
  assert (Hpre : forall rest,
             contains TIMEOUT_WORD
               (lower (lit "Transaction HexBytes('0x") ++ rest)
             = contains TIMEOUT_WORD rest) by (intros rest; reflexivity).
  unfold TIME_EXHAUSTED_MSG, lower. rewrite !map_app.
  change (map lower_char ?s) with (lower s).
  rewrite Hpre, no_timeout_word_in_hex. vm_compute. reflexivity.
Qed.

Lemma pending_is_no_timeout rpc tx_hash : is_timeout (pending rpc tx_hash) = false.
Proof. apply time_exhausted_lacks_timeout_word. Qed.

Lemma push_cons_pending html rpc tx_hash rest w :
  push_to_contract html (pending rpc tx_hash :: rest) w
  = let '(r, w', evs) := push_to_contract html rest w in
    (r, w',
     Attempt rpc html (current_gas_price_wei w)
       :: Errored rpc (TIME_EXHAUSTED_MSG tx_hash) :: evs).
Proof.
  cbn [push_to_contract pending reply_of url]. unfold on_exception.
  rewrite time_exhausted_lacks_timeout_word.
  destruct (push_to_contract html rest w) as [[r w'] evs]. reflexivity.
Qed.

(** C6 (the code departs from the claim, and from its own docstring).  The
    docstring of [push_to_contract] promises a higher gas price when a
    transaction remains pending, and line 169 waits for the receipt for 60
    seconds; but when that wait runs out the exception raised says "is not in
    the chain after 60 seconds", which the handler's search for "timeout"
    misses.  So for every transaction hash and from every price, an endpoint
    on which the transaction stays pending is logged as an error, not as a
    timeout, and the next endpoint starts from the same price; any number of
    such endpoints in a row leave the globals as they were, although below
    the maximum one Escalate would have raised the price by a step. *)
Theorem pending_transaction_does_not_escalate html rpc tx_hash rest w :
  let ep := pending rpc tx_hash in
  let p := current_gas_price_wei w in
  is_timeout ep = false /\
  push_to_contract html (ep :: rest) w
  = (let '(r, w', evs) := push_to_contract html rest w in
     (r, w',
      Attempt rpc html p :: Errored rpc (TIME_EXHAUSTED_MSG tx_hash) :: evs)) /\
  (forall n,
      let r := push_to_contract html (repeat ep n) w in
      returned r = false /\ world_after r = w /\
      ~ In (TimedOut rpc) (log_of r)) /\
  (p < GAS_PRICE_MAX -> escalate p = p + GAS_PRICE_STEP /\ p < escalate p).
Proof.
  cbv zeta.
  split; [apply pending_is_no_timeout | ].
  split; [apply push_cons_pending | ].
  split.
  - induction n as [ | n IH]; [repeat split; intros [] | ].
    cbn [repeat]. rewrite push_cons_pending.
    unfold returned, world_after, log_of in *.
    destruct (push_to_contract html (repeat (pending rpc tx_hash) n) w)
      as [[r w'] evs].
    cbn [fst snd] in *. destruct IH as (Hr & Hw & Hl).
    split; [exact Hr | ]. split; [exact Hw | ].
    intros [H | [H | H]]; [discriminate H | discriminate H | exact (Hl H)].
  - intros Hp. unfold escalate.
    destruct (Z.ltb_spec (current_gas_price_wei w) GAS_PRICE_MAX) as [_ | Hge];
      [ | lia].
    split; [reflexivity | ].
    assert (0 < GAS_PRICE_STEP) by (vm_compute; reflexivity). lia.
Qed.

(** C9, as the claim has it, fails: for 21 000 units of gas at the base
    price the fee recorded is a binary64 number, and its exact value is not
    [21000 * 1300000 / 10^18]. *)
Lemma recorded_fee_is_rounded :
  let r := push_to_contract [] [accepting (lit "A") 21000]
             (globals (initial_state None)) in
  exists fee,
    fees_recorded (log_of r) = [fee] /\
    float_is_ratio fee (21000 * 1300000) (10 ^ 18) = false.
Proof. eexists. vm_compute. split; reflexivity. Qed.

(** C9, amended.  Whenever the submitter returns success, the endpoint list
    splits at the attempt that confirmed; the gas price of that transaction
    is the price the call started with, escalated once for each endpoint
    before it whose attempt raised an exception with "timeout" in its
    message; the product of the gas used and that price is
    computed exactly, as an integer, and the fee is that product converted to
    binary64 and divided, in binary64, by the float [1e18]; this one fee is
    what the ledger file is updated with. *)
Theorem fee_is_float_quotient html rpcs : forall w,
  returned (push_to_contract html rpcs w) = true ->
  exists pre ep post gasUsed,
    rpcs = pre ++ ep :: post /\
    reply_of ep = Receipt 1 gasUsed /\
    let gas_wei := price_after pre (current_gas_price_wei w) in
    let fee_eth :=
      fdiv (binary_normalize prec emax (gasUsed * gas_wei) 0 false) float_1e18 in
    let r := push_to_contract html rpcs w in
    In (Attempt (url ep) html gas_wei) (log_of r) /\
    fees_recorded (log_of r) = [fee_eth] /\
    fee_txt (world_after r) = Some (update_fee_file fee_eth (fee_txt w)).
Proof.
  induction rpcs as [ | ep rest IH]; intros w Hr; [discriminate Hr | ].
  destruct (confirms (current_gas_price_wei w) ep) eqn:Ec.
  - destruct (push_cons_confirms html ep rest w Ec) as (g & x & Hrep & Hx & E).
    exists [], ep, rest, g. split; [reflexivity | ]. split; [exact Hrep | ].
    cbv zeta. rewrite E. unfold price_after, log_of, world_after. simpl fold_left.
    unfold int_to_float in Hx.
    destruct (Z.abs (g * current_gas_price_wei w) <? 2 ^ 1024 - 2 ^ 970);
      [ | discriminate Hx ].
    injection Hx as <-.
    split; [left; reflexivity | ]. split; reflexivity.
  - destruct (push_cons_continue html ep rest w Ec)
      as (evs1 & _ & _ & Hf & _ & Hk).
    set (w2 := set_price (if is_timeout ep
                          then escalate (current_gas_price_wei w)
                          else current_gas_price_wei w) w) in *.
    specialize (IH w2).
    destruct (push_to_contract html rest w2) as [[r w'] evs] eqn:E.
    rewrite (Hk r w' evs eq_refl) in Hr |- *.
    destruct (IH Hr) as (pre & ep' & post & g & -> & Hrep & Hin & Hfees & Hledger).
    exists (ep :: pre), ep', post, g.
    split; [reflexivity | ]. split; [exact Hrep | ].
    cbv zeta. unfold log_of, world_after in *. simpl in Hin, Hfees, Hledger |- *.
    split; [ | split ].
    + apply in_or_app. right. exact Hin.
    + rewrite fees_recorded_app, Hf. exact Hfees.
    + exact Hledger.
Qed.

(** ** The publish loop *)

Lemma last_published_app a : forall b l,
  last_published l (a ++ b) = last_published (last_published l a) b.
Proof.
  induction a as [ | e a IH]; intros b l; [reflexivity | ].
  destruct e; simpl; apply IH.
Qed.

Lemma last_published_plain evs : forall l,
  (forall c, ~ In (Published c) evs) -> last_published l evs = l.
Proof.
  induction evs as [ | e evs IH]; intros l H; [reflexivity | ].
  assert (H' : forall c, ~ In (Published c) evs)
    by (intros c Hc; apply (H c); right; exact Hc).
  destruct e; simpl; try (apply IH; exact H').
  exfalso. apply (H timestamp). left. reflexivity.
Qed.

Ltac push_rec IH :=
  match goal with
  | |- context [push_to_contract ?h ?r ?w] =>
      let H := fresh "IHw" in
      pose proof (IH w) as H;
      destruct (push_to_contract h r w) as [[? ?] ?]
  end.

(** The submitter logs no [Published] step of its own. *)
Lemma push_log_no_published html rpcs c : forall w,
  ~ In (Published c) (log_of (push_to_contract html rpcs w)).
Proof.
  unfold log_of.
  induction rpcs as [ | ep rest IH]; intros w; [intros [] | ].
  simpl. destruct (reply_of ep) as [ | msg | status gasUsed].
  - push_rec IH. simpl in *. intros [H | H]; [discriminate H | tauto].
  - unfold on_exception.
    destruct (contains TIMEOUT_WORD (lower msg));
      [ destruct (current_gas_price_wei w <? GAS_PRICE_MAX) | ];
      push_rec IH; simpl in *;
      intuition discriminate.
  - destruct (status =? 1).
    + destruct (int_to_float (gasUsed * current_gas_price_wei w)).
      * simpl. intuition discriminate.
      * push_rec IH. simpl in *. intuition discriminate.
    + push_rec IH. simpl in *. intuition discriminate.
Qed.

Lemma prepare_idle_no_published inp last evs c :
  prepare inp last = Idle evs -> ~ In (Published c) evs.
Proof.
  unfold prepare.
  destruct (board_txt inp) as [raw | ];
    [ | intros E; inversion E; simpl; intuition discriminate ].
  destruct (last_line _) as [line | ];
    [ | intros E; inversion E; simpl; intuition discriminate ].
  destruct (negb _);
    [ intros E; inversion E; simpl; intuition discriminate | ].
  destruct (same_timestamp _ _);
    [ intros E; inversion E; simpl; intuition discriminate | ].
  destruct (generate_html _ _ _ _);
    intros E; inversion E; simpl; intuition discriminate.
Qed.

(** One pass: what happens to [last_timestamp], in terms of what the
    submitter returned. *)
Lemma cycle_last_timestamp inp st :
  match prepare inp (last_timestamp st) with
  | Submit c html =>
      last_timestamp (fst (cycle inp st))
      = if returned (push_to_contract html (rpcs inp) (globals st))
        then Some c else last_timestamp st
  | Idle _ => fst (cycle inp st) = st
  end.
Proof.
  unfold cycle.
  destruct (prepare inp (last_timestamp st)) as [evs | c html]; [reflexivity | ].
  destruct (push_to_contract html (rpcs inp) (globals st)) as [[ok w'] evs].
  unfold returned. simpl. destruct ok; reflexivity.
Qed.

(** One pass logs [Published c] exactly when the submitter was called for
    the update stamped [c] and returned success. *)
Lemma cycle_published inp st c :
  In (Published c) (snd (cycle inp st)) <->
  exists html,
    prepare inp (last_timestamp st) = Submit c html /\
    returned (push_to_contract html (rpcs inp) (globals st)) = true.
Proof.
  unfold cycle.
  destruct (prepare inp (last_timestamp st)) as [evs | c' html] eqn:Ep.
  - simpl. split.
    + intros H. exfalso. exact (prepare_idle_no_published _ _ _ c Ep H).
    + intros (html & E & _). discriminate E.
  - pose proof (push_log_no_published html (rpcs inp) c (globals st)) as Hn.
    destruct (push_to_contract html (rpcs inp) (globals st))
      as [[ok w'] evs] eqn:Epush.
    unfold log_of in Hn. simpl in Hn.
    destruct ok; simpl.
    + split.
      * intros [H | H]; [discriminate H | ].
        apply in_app_or in H as [H | [H | []]]; [tauto | ].
        injection H as ->. exists html. rewrite Epush. split; reflexivity.
      * intros (html' & E & _). injection E as -> ->.
        right. apply in_or_app. right. left. reflexivity.
    + split.
      * intros [H | H]; [discriminate H | ].
        apply in_app_or in H as [H | [H | []]]; [tauto | discriminate H].
      * intros (html' & E & Hret). injection E as -> ->.
        rewrite Epush in Hret. discriminate Hret.
Qed.

Lemma cycle_tracks_published inp st :
  last_timestamp (fst (cycle inp st))
  = last_published (last_timestamp st) (snd (cycle inp st)).
Proof.
  unfold cycle.
  destruct (prepare inp (last_timestamp st)) as [evs | c html] eqn:Ep.
  - simpl. symmetry. apply last_published_plain.
    intros c. exact (prepare_idle_no_published _ _ _ c Ep).
  - pose proof (fun c => push_log_no_published html (rpcs inp) c (globals st))
      as Hn.
    destruct (push_to_contract html (rpcs inp) (globals st)) as [[ok w'] evs].
    unfold log_of in Hn. simpl in Hn.
    destruct ok; simpl; rewrite last_published_app,
      (last_published_plain evs _ Hn); reflexivity.
Qed.

(** Over any number of passes [last_timestamp] is the timestamp of the most
    recent [Published] step. *)
Lemma main_loop_tracks_published inputs : forall st,
  last_timestamp (fst (main_loop inputs st))
  = last_published (last_timestamp st) (snd (main_loop inputs st)).
Proof.
  induction inputs as [ | inp rest IH]; intros st; [reflexivity | ].
  simpl. pose proof (cycle_tracks_published inp st) as Hc.
  destruct (cycle inp st) as [st1 evs1]. specialize (IH st1).
  destruct (main_loop rest st1) as [st2 evs2]. simpl in *.
  rewrite last_published_app, <- Hc. exact IH.
Qed.

(** C4.  In every pass that calls the submitter for the update stamped [c],
    [last_timestamp] becomes [c] when the submitter returns success and keeps
    its value when it returns failure; a pass that does not call it changes
    nothing.  A [Published c] step is logged exactly in the first case, and in
    every state the loop reaches from its start [last_timestamp] is the
    timestamp of the most recent such step, or unset when there is none. *)
Theorem last_timestamp_is_last_confirmed_publish :
  (forall inp st,
      match prepare inp (last_timestamp st) with
      | Submit c html =>
          last_timestamp (fst (cycle inp st))
          = if returned (push_to_contract html (rpcs inp) (globals st))
            then Some c else last_timestamp st
      | Idle _ => fst (cycle inp st) = st
      end) /\
  (forall inp st c,
      In (Published c) (snd (cycle inp st)) <->
      exists html,
        prepare inp (last_timestamp st) = Submit c html /\
        returned (push_to_contract html (rpcs inp) (globals st)) = true) /\
  (forall fee inputs,
      let r := main_loop inputs (initial_state fee) in
      last_timestamp (fst r) = last_published None (snd r)).
Proof.
  split; [exact cycle_last_timestamp | ].
  split; [exact cycle_published | ].
  intros fee inputs. cbv zeta.
  apply (main_loop_tracks_published inputs (initial_state fee)).
Qed.

Lemma same_timestamp_refl c : same_timestamp (Some c) c = true.
Proof.
  unfold same_timestamp. destruct (list_eq_dec ascii_dec c c); congruence.
Qed.

(** C3.  When the most recent confirmed publish of a run had the timestamp
    [c], a pass that reads a well-formed board file (non-empty, last line
    starting with "Timestamp:") whose timestamp is again [c] leaves the state
    as it is and logs nothing but "no new update": the submitter is not
    called and no transaction is attempted on any endpoint. *)
Theorem same_clock_no_remote_write fee inputs inp raw line c :
  let r := main_loop inputs (initial_state fee) in
  last_published None (snd r) = Some c ->
  board_txt inp = Some raw ->
  last_line (splitlines (universal_newlines raw)) = Some line ->
  startswith TIMESTAMP_TAG line = true ->
  clock_of line = c ->
  cycle inp (fst r) = (fst r, [NoNewUpdate]) /\
  attempted (snd (cycle inp (fst r))) = [].
Proof.
  cbv zeta. intros Hpub Hraw Hline Htag Hclock.
  pose proof (main_loop_tracks_published inputs (initial_state fee)) as Hinv.
  simpl in Hinv. rewrite Hpub in Hinv.
  assert (E : cycle inp (fst (main_loop inputs (initial_state fee)))
              = (fst (main_loop inputs (initial_state fee)), [NoNewUpdate])).
  { unfold cycle, prepare. rewrite Hraw, Hline, Htag, Hclock, Hinv.
    simpl negb. cbv iota. rewrite same_timestamp_refl. reflexivity. }
  split; [exact E | ]. rewrite E. reflexivity.
Qed.

Lemma same_clock_no_remote_write_witness :
  let r := main_loop [demo_input] (initial_state None) in
  cycle demo_input (fst r) = (fst r, [NoNewUpdate]) /\
  attempted (snd (cycle demo_input (fst r))) = [].
Proof.
  apply (same_clock_no_remote_write None [demo_input] demo_input
           (lit "A" ++ newline :: lit "B" ++ newline
              :: lit "Timestamp: t1" ++ [newline])
           (lit "Timestamp: t1") (lit "t1"));
    vm_compute; reflexivity.
Defined.

Lemma fee_is_float_quotient_witness :
  exists pre ep post gasUsed,
    demo_rpcs = pre ++ ep :: post /\
    reply_of ep = Receipt 1 gasUsed /\
    let gas_wei := price_after pre BASE_GAS_PRICE in
    let fee_eth :=
      fdiv (binary_normalize prec emax (gasUsed * gas_wei) 0 false) float_1e18 in
    let r := push_to_contract [] demo_rpcs (globals (initial_state None)) in
    In (Attempt (url ep) [] gas_wei) (log_of r) /\
    fees_recorded (log_of r) = [fee_eth] /\
    fee_txt (world_after r) = Some (update_fee_file fee_eth None).
Proof.
  apply (fee_is_float_quotient [] demo_rpcs (globals (initial_state None))).
  vm_compute. reflexivity.
Defined.

Lemma replace_from_absent old new s :
  contains old s = false -> replace_from 0 old new s = s.
Proof.
  induction s as [ | c s IH]; intros H; [reflexivity | ].
  cbn [contains] in H. apply orb_false_iff in H as [Hs Hc].
  cbn [replace_from]. rewrite Hs, (IH Hc). reflexivity.
Qed.

(** *** What [startswith] and [strip] do *)

Lemma startswith_prefix p : forall s,
  startswith p s = true <-> exists t, s = p ++ t.
Proof.
  induction p as [ | a p IH]; intros s.
  - split; [intros _; exists s; reflexivity | reflexivity].
  - destruct s as [ | b s]; cbn [startswith].
    + split; [discriminate | intros [t H]; discriminate H].
    + rewrite andb_true_iff, Ascii.eqb_eq, IH. split.
      * intros [-> [t ->]]. exists t. reflexivity.
      * intros [t H]. injection H as -> ->.
        split; [reflexivity | exists t; reflexivity].
Qed.

Lemma lstrip_split s :
  exists l, forallb isspace l = true /\ s = l ++ lstrip s.
Proof.
  induction s as [ | c s (l & Hl & Hs)]; [exists []; split; reflexivity | ].
  cbn [lstrip]. destruct (isspace c) eqn:Ec.
  - exists (c :: l). cbn [forallb app]. rewrite Ec, Hl.
    split; [reflexivity | ]. f_equal. exact Hs.
  - exists []. split; reflexivity.
Qed.

Lemma lstrip_head s c rest : lstrip s = c :: rest -> isspace c = false.
Proof.
  induction s as [ | a s IH]; cbn [lstrip]; [discriminate | ].
  destruct (isspace a) eqn:Ea; [exact IH | ].
  intros H. injection H as <- _. exact Ea.
Qed.

Lemma forallb_rev (f : ascii -> bool) l :
  forallb f l = true -> forallb f (rev l) = true.
Proof.
  rewrite !forallb_forall. intros H x Hx. apply H, in_rev. exact Hx.
Qed.

Lemma rstrip_split s :
  exists r, forallb isspace r = true /\ s = rstrip s ++ r.
Proof.
  destruct (lstrip_split (rev s)) as (l & Hl & Hs).
  exists (rev l). split; [apply forallb_rev; exact Hl | ].
  unfold rstrip. rewrite <- rev_app_distr, <- Hs, rev_involutive. reflexivity.
Qed.

Lemma rstrip_last s init c : rstrip s = init ++ [c] -> isspace c = false.
Proof.
  unfold rstrip. intros H.
  apply (f_equal (@rev ascii)) in H.
  rewrite rev_involutive, rev_unit in H.
  exact (lstrip_head _ _ _ H).
Qed.

(** [s.strip()] is [s] without a leading and a trailing run of whitespace,
    and neither begins nor ends with whitespace. *)
Lemma strip_split s :
  exists l r,
    s = l ++ strip s ++ r /\
    forallb isspace l = true /\ forallb isspace r = true /\
    (forall c rest, strip s = c :: rest -> isspace c = false) /\
    (forall init c, strip s = init ++ [c] -> isspace c = false).
Proof.
  destruct (lstrip_split s) as (l & Hl & Hs).
  destruct (rstrip_split (lstrip s)) as (r & Hr & Ht).
  exists l, r. unfold strip.
  split; [rewrite <- Ht; exact Hs | ].
  split; [exact Hl | ]. split; [exact Hr | ]. split.
  - intros c rest H. rewrite H in Ht. exact (lstrip_head _ _ _ Ht).
  - intros init c H. exact (rstrip_last _ _ _ H).
Qed.

Lemma lstrip_spaces l s : forallb isspace l = true -> lstrip (l ++ s) = lstrip s.
Proof.
  induction l as [ | c l IH]; intros H; [reflexivity | ].
  cbn [forallb] in H. apply andb_true_iff in H as [Hc Hl].
  cbn [app lstrip]. rewrite Hc. exact (IH Hl).
Qed.

Lemma lstrip_all_spaces l : forallb isspace l = true -> lstrip l = [].
Proof.
  intros H. rewrite <- (app_nil_r l), (lstrip_spaces l [] H). reflexivity.
Qed.

(** Whitespace around a text that neither begins nor ends with whitespace
    is what [strip] removes, and all it removes. *)
Lemma strip_padded l t r :
  forallb isspace l = true -> forallb isspace r = true ->
  (forall c rest, t = c :: rest -> isspace c = false) ->
  (forall init c, t = init ++ [c] -> isspace c = false) ->
  strip (l ++ t ++ r) = t.
Proof.
  intros Hl Hr Hhd Hlast. unfold strip. rewrite (lstrip_spaces l _ Hl).
  destruct t as [ | c t'].
  - cbn [app]. rewrite (lstrip_all_spaces r Hr). reflexivity.
  - cbn [app lstrip]. rewrite (Hhd c t' eq_refl).
    change (c :: t' ++ r) with ((c :: t') ++ r).
    unfold rstrip. rewrite rev_app_distr.
    rewrite (lstrip_spaces (rev r) _ (forallb_rev _ _ Hr)).
    destruct (rev (c :: t')) as [ | d u] eqn:E.
    + apply (f_equal (@rev ascii)) in E. rewrite rev_involutive in E.
      discriminate E.
    + cbn [lstrip].
      assert (Ht : c :: t' = rev u ++ [d]).
      { rewrite <- (rev_involutive (c :: t')), E. reflexivity. }
      rewrite (Hlast _ _ Ht), <- E. apply rev_involutive.
Qed.

(** C10.  A board file whose last line starts with "Timestamp:" is taken as
    well formed, whether or not a space follows the colon, and the timestamp
    of the update is that line with every occurrence of "Timestamp: " (colon
    and one space) deleted and the whitespace around the result stripped: the
    pass then either finds the timestamp unchanged or goes on to render and
    submit under it.  So the line "Timestamp:t1" is accepted and its
    timestamp is "Timestamp:t1" itself; an occurrence of "Timestamp: " at the
    head is deleted before the rest is looked at, and occurrences inside the
    token go as well ("Timestamp: 12Timestamp: 34" gives "1234").  To start
    with "Timestamp:" is to be that text followed by anything.  The
    stripping is real: for every line the timestamp is what the deletion
    leaves, less a run of whitespace at each end, and it neither begins nor
    ends with whitespace; a token that holds no "Timestamp: " and has no
    whitespace at its ends is found again whatever whitespace is put around
    it ("Timestamp:  t1 " followed by a tab gives "t1"). *)
Theorem timestamp_line_accepted_by_prefix :
  (forall inp last raw line,
      board_txt inp = Some raw ->
      last_line (splitlines (universal_newlines raw)) = Some line ->
      startswith TIMESTAMP_TAG line = true ->
      let c := strip (replace TIMESTAMP_HEAD [] line) in
      prepare inp last
      = if same_timestamp last c then Idle [NoNewUpdate]
        else match generate_html (template_html inp)
                     (json_dumps (removelast (splitlines (universal_newlines raw))))
                     BOARD_ID c with
             | None => Idle [Detected c; HtmlFailed]
             | Some html => Submit c html
             end) /\
  (forall token, startswith TIMESTAMP_TAG (TIMESTAMP_TAG ++ token) = true) /\
  clock_of (lit "Timestamp:t1") = lit "Timestamp:t1" /\
  (forall rest,
      replace TIMESTAMP_HEAD [] (TIMESTAMP_HEAD ++ rest)
      = replace TIMESTAMP_HEAD [] rest) /\
  clock_of (lit "Timestamp: 12Timestamp: 34") = lit "1234" /\
  (forall line,
      startswith TIMESTAMP_TAG line = true <->
      exists token, line = TIMESTAMP_TAG ++ token) /\
  (forall line,
      exists l r,
        replace TIMESTAMP_HEAD [] line = l ++ clock_of line ++ r /\
        forallb isspace l = true /\ forallb isspace r = true /\
        (forall c rest, clock_of line = c :: rest -> isspace c = false) /\
        (forall init c, clock_of line = init ++ [c] -> isspace c = false)) /\
  (forall l token r,
      forallb isspace l = true -> forallb isspace r = true ->
      contains TIMESTAMP_HEAD (l ++ token ++ r) = false ->
      (forall c rest, token = c :: rest -> isspace c = false) ->
      (forall init c, token = init ++ [c] -> isspace c = false) ->
      clock_of (TIMESTAMP_HEAD ++ l ++ token ++ r) = token) /\
  clock_of (lit "Timestamp:  t1 " ++ [tab]) = lit "t1".
Proof.
  split; [ | split; [ | split; [ | split; [ | split; [ | split;
    [ | split; [ | split ] ] ] ] ] ] ].
  - intros inp last raw line Hraw Hline Htag. cbv zeta.
    unfold prepare. rewrite Hraw, Hline, Htag. reflexivity.
  - intros token. reflexivity.
  - vm_compute. reflexivity.
  - intros rest. reflexivity.
  - vm_compute. reflexivity.
  - intros line. apply startswith_prefix.
  - intros line. apply strip_split.
  - intros l token r Hl Hr Hc Hhd Hlast. unfold clock_of.
    change (replace TIMESTAMP_HEAD [] (TIMESTAMP_HEAD ++ l ++ token ++ r))
      with (replace_from 0 TIMESTAMP_HEAD [] (l ++ token ++ r)).
    rewrite replace_from_absent by exact Hc.
    apply strip_padded; assumption.
  - vm_compute. reflexivity.
Qed.

(** A board file whose timestamp line has two spaces after the colon and
    ends in a space and a tab: the update is submitted under "t1". *)
Lemma timestamp_line_accepted_by_prefix_witness :
  prepare {| board_txt :=
               Some (lit "A" ++ newline :: lit "Timestamp:  t1 " ++ [tab]);
             template_html := Some (lit "<!--LAST_UPDATE_TIME-->");
             rpcs := [] |} None
  = Submit (lit "t1") (lit "t1").
Proof.
  apply (proj1 timestamp_line_accepted_by_prefix
           {| board_txt :=
                Some (lit "A" ++ newline :: lit "Timestamp:  t1 " ++ [tab]);
              template_html := Some (lit "<!--LAST_UPDATE_TIME-->");
              rpcs := [] |}
           None (lit "A" ++ newline :: lit "Timestamp:  t1 " ++ [tab])
           (lit "Timestamp:  t1 " ++ [tab]));
    vm_compute; reflexivity.
Defined.

(** ** Text files *)

Lemma universal_newlines_no_cr_upto n : forall s,
  (length s <= n)%nat -> ~ In carriage_return (universal_newlines s).
Proof.
  induction n as [ | n IH]; intros s Hn.
  - destruct s; [intros [] | simpl in Hn; lia].
  - destruct s as [ | c s]; [intros [] | ].
    simpl in Hn. cbn [universal_newlines].
    destruct (Ascii.eqb_spec c carriage_return) as [-> | Hc].
    + intros [H | H]; [discriminate H | ].
      destruct s as [ | d s]; [exact H | ].
      destruct (Ascii.eqb d newline).
      * apply (IH s); [simpl in Hn; lia | exact H].
      * apply (IH (d :: s)); [lia | exact H].
    + intros [H | H]; [congruence | ].
      apply (IH s); [lia | exact H].
Qed.

Lemma universal_newlines_no_cr s : ~ In carriage_return (universal_newlines s).
Proof. apply (universal_newlines_no_cr_upto (length s)). lia. Qed.

Lemma universal_newlines_id s :
  ~ In carriage_return s -> universal_newlines s = s.
Proof.
  induction s as [ | c s IH]; intros H; [reflexivity | ].
  cbn [universal_newlines].
  destruct (Ascii.eqb_spec c carriage_return) as [-> | Hc].
  - exfalso. apply H. left. reflexivity.
  - f_equal. apply IH. intros Hin. apply H. right. exact Hin.
Qed.

Lemma concat_readlines s : concat (readlines s) = s.
Proof.
  induction s as [ | c s IH]; [reflexivity | ].
  cbn [readlines]. destruct (Ascii.eqb c newline).
  - simpl. rewrite IH. reflexivity.
  - destruct (readlines s) as [ | l ls]; simpl in *; rewrite <- IH; reflexivity.
Qed.

(** A line without LF inside, followed by LF, is read as one line. *)
Lemma readlines_terminated body : forall rest,
  ~ In newline body ->
  readlines (body ++ newline :: rest) = (body ++ [newline]) :: readlines rest.
Proof.
  induction body as [ | c body IH]; intros rest H.
  - simpl. reflexivity.
  - change ((c :: body) ++ newline :: rest) with (c :: body ++ newline :: rest).
    cbn [readlines].
    destruct (Ascii.eqb_spec c newline) as [-> | Hc].
    + exfalso. apply H. left. reflexivity.
    + rewrite IH by (intros Hin; apply H; right; exact Hin). reflexivity.
Qed.

(** The lines [readlines] returns are non-empty and hold no LF before their
    last character. *)
Lemma readlines_shape s :
  Forall (fun l => l <> [] /\ ~ In newline (removelast l)) (readlines s).
Proof.
  induction s as [ | c s IH]; [constructor | ].
  cbn [readlines].
  destruct (Ascii.eqb_spec c newline) as [-> | Hc].
  - constructor; [ | exact IH ]. split; [discriminate | intros []].
  - destruct (readlines s) as [ | l ls].
    + constructor; [ | constructor ]. split; [discriminate | intros []].
    + inversion IH as [ | ? ? [Hl Hnl] Hls]; subst.
      constructor; [ | exact Hls ]. split; [discriminate | ].
      destruct l as [ | d l]; [congruence | ].
      change (removelast (c :: d :: l)) with (c :: removelast (d :: l)).
      intros [H | H]; [congruence | exact (Hnl H)].
Qed.

Lemma terminated_split l :
  terminated l -> l = removelast l ++ [newline].
Proof.
  unfold terminated. intros H.
  destruct l as [ | c l]; [discriminate H | ].
  apply Ascii.eqb_eq in H.
  rewrite <- H. apply app_removelast_last. discriminate.
Qed.

(** Terminated lines written back one after the other are read as they were. *)
Lemma readlines_concat ls : forall rest,
  Forall (fun l => l <> [] /\ ~ In newline (removelast l)) ls ->
  Forall terminated ls ->
  readlines (concat ls ++ rest) = ls ++ readlines rest.
Proof.
  induction ls as [ | l ls IH]; intros rest Hs Ht; [reflexivity | ].
  inversion Hs as [ | ? ? [_ Hnl] Hs']; subst.
  inversion Ht as [ | ? ? Hl Ht']; subst.
  cbn [concat]. rewrite <- app_assoc.
  rewrite (terminated_split l Hl) at 1. rewrite <- app_assoc.
  cbn [app]. rewrite readlines_terminated by exact Hnl.
  rewrite <- (terminated_split l Hl). rewrite IH by assumption. reflexivity.
Qed.

(** ** The rendering of floats *)

Lemma fmt_char_props c :
  fmt_char c = true ->
  c <> newline /\ c <> carriage_return /\ isspace c = false /\
  c_isspace c = false /\ Ascii.eqb "T"%char c = false /\
  Ascii.eqb c underscore = false /\ to_ascii_space c = c.
Proof.
  destruct c as [[] [] [] [] [] [] [] []]; vm_compute; intros H;
    try discriminate H; repeat split; discriminate.
Qed.

Lemma is_digit_fmt_char c : is_digit c = true -> fmt_char c = true.
Proof. unfold fmt_char. intros ->. reflexivity. Qed.

Lemma uint_digits d :
  Forall (fun c => is_digit c = true)
    (list_ascii_of_string (DecimalString.NilEmpty.string_of_uint d)).
Proof. induction d; simpl; constructor; solve [reflexivity | assumption]. Qed.

Lemma decimal_digits_digits n :
  Forall (fun c => is_digit c = true) (decimal_digits n).
Proof.
  unfold decimal_digits, lit, DecimalString.NilZero.string_of_uint.
  destruct (N.to_uint (Z.to_N n)) eqn:E;
    try (rewrite <- E; apply uint_digits).
  repeat constructor.
Qed.

Lemma fixed10_chars n : Forall (fun c => fmt_char c = true) (fixed10 n).
Proof.
  unfold fixed10.
  set (ds := repeat zero_char (11 - length (decimal_digits n)) ++ decimal_digits n).
  assert (Hds : Forall (fun c => fmt_char c = true) ds).
  { apply Forall_app. split.
    - apply Forall_forall. intros c Hc. apply repeat_spec in Hc. subst c.
      reflexivity.
    - eapply Forall_impl; [ | apply decimal_digits_digits ].
      intros c. apply is_digit_fmt_char. }
  rewrite <- (firstn_skipn (length ds - 10) ds) in Hds.
  apply Forall_app in Hds as [H1 H2].
  apply Forall_app. split; [exact H1 | ].
  constructor; [reflexivity | exact H2].
Qed.

Lemma format_10f_chars x : Forall (fun c => fmt_char c = true) (format_10f x).
Proof.
  assert (Hsign : forall s, Forall (fun c => fmt_char c = true) (sign_str s))
    by (intros [ | ]; repeat constructor).
  destruct x as [s | s | | s m e]; unfold format_10f.
  - apply Forall_app. split; [apply Hsign | apply fixed10_chars].
  - apply Forall_app. split; [apply Hsign | repeat constructor].
  - repeat constructor.
  - apply Forall_app. split; [apply Hsign | apply fixed10_chars].
Qed.

Lemma fixed10_not_nil n : fixed10 n <> [].
Proof. unfold fixed10. intros H. apply app_eq_nil in H as [_ H]. discriminate H. Qed.

Lemma format_10f_not_nil x : format_10f x <> [].
Proof.
  assert (Happ : forall a b : str, b <> [] -> a ++ b <> []).
  { intros a b Hb H. apply app_eq_nil in H as [_ H]. exact (Hb H). }
  destruct x as [s | s | | s m e]; unfold format_10f.
  - apply Happ, fixed10_not_nil.
  - apply Happ. discriminate.
  - discriminate.
  - apply Happ, fixed10_not_nil.
Qed.

(** ** Rendering the template *)

Lemma diverges_not_prefix m : forall s rest,
  diverges m s = true -> startswith m (s ++ rest) = false.
Proof.
  induction m as [ | a m IH]; intros s rest H; [discriminate H | ].
  destruct s as [ | b s]; [discriminate H | ].
  simpl in *. destruct (Ascii.eqb a b); [ | reflexivity ].
  simpl. apply IH. exact H.
Qed.

Lemma marker_safe_diverges k c s :
  marker_safe (c :: s) = true -> diverges (mark k) (c :: s) = true.
Proof.
  cbn [marker_safe]. intros H.
  apply andb_true_iff in H as [H _].
  apply andb_true_iff in H as [H H3].
  apply andb_true_iff in H as [H1 H2].
  destruct k; assumption.
Qed.

Lemma marker_safe_tail c s : marker_safe (c :: s) = true -> marker_safe s = true.
Proof. cbn [marker_safe]. intros H. apply andb_true_iff in H as [_ H]. exact H. Qed.

(** Text in which no marker starts goes through a replacement unchanged. *)
Lemma replace_from_safe_text k v s : forall rest,
  marker_safe s = true ->
  replace_from 0 (mark k) v (s ++ rest) = s ++ replace_from 0 (mark k) v rest.
Proof.
  induction s as [ | c s IH]; intros rest H; [reflexivity | ].
  pose proof (diverges_not_prefix _ _ rest (marker_safe_diverges k c s H)) as Hn.
  change ((c :: s) ++ rest) with (c :: s ++ rest) in *.
  cbn [replace_from]. rewrite Hn.
  change ((c :: s) ++ replace_from 0 (mark k) v rest)
    with (c :: s ++ replace_from 0 (mark k) v rest).
  f_equal. apply IH. exact (marker_safe_tail c s H).
Qed.

(** A marker met by the replacement of [k]: replaced when it is [k], left
    alone otherwise. *)
Lemma replace_from_mark j k v rest :
  replace_from 0 (mark k) v (mark j ++ rest)
  = (if marker_eqb j k then v else mark j) ++ replace_from 0 (mark k) v rest.
Proof. destruct j, k; reflexivity. Qed.

Lemma replace_mark_from k v s : replace (mark k) v s = replace_from 0 (mark k) v s.
Proof. destruct k; reflexivity. Qed.

Lemma replace_pieces k v ps :
  Forall safe_piece ps ->
  replace (mark k) v (flatten ps) = flatten (map (subst_one k v) ps).
Proof.
  rewrite replace_mark_from.
  induction 1 as [ | p ps Hp _ IH]; [reflexivity | ].
  unfold flatten in *. cbn [flat_map map].
  destruct p as [s | j].
  - rewrite replace_from_safe_text by exact Hp. rewrite IH. reflexivity.
  - rewrite replace_from_mark, IH. cbn [subst_one].
    destruct (marker_eqb j k); reflexivity.
Qed.

Lemma subst_one_safe k v ps :
  marker_safe v = true -> Forall safe_piece ps ->
  Forall safe_piece (map (subst_one k v) ps).
Proof.
  intros Hv H. induction H as [ | p ps Hp _ IH]; constructor; [ | exact IH ].
  destruct p as [s | j]; [exact Hp | ].
  cbn [subst_one]. destruct (marker_eqb j k); [exact Hv | exact I].
Qed.

Lemma subst_three k1 k2 k3 val ps :
  NoDup [k1; k2; k3] ->
  flatten (map (subst_one k3 (val k3))
             (map (subst_one k2 (val k2))
                (map (subst_one k1 (val k1)) ps)))
  = subst_all val ps.
Proof.
  intros Hnd.
  assert (Hall : forall j, j = k1 \/ j = k2 \/ j = k3).
  { inversion Hnd as [ | ? ? H1 Hnd']; subst.
    inversion Hnd' as [ | ? ? H2 Hnd'']; subst.
    simpl in H1, H2.
    intros j. destruct j, k1, k2, k3; tauto. }
  induction ps as [ | p ps IH]; [reflexivity | ].
  unfold flatten, subst_all in *. cbn [map flat_map]. rewrite IH. f_equal.
  destruct p as [s | j]; [reflexivity | ].
  destruct (Hall j) as [-> | [-> | ->]];
    destruct k1, k2, k3; try reflexivity;
    exfalso; inversion Hnd as [ | ? ? H1 Hnd']; subst;
    inversion Hnd' as [ | ? ? H2 _]; subst; simpl in H1, H2; tauto.
Qed.

(** C8, as the claim has it, fails twice.  A marker that occurs twice in the
    template is replaced twice, where replacing at most once would leave the
    second occurrence; and when a board line spells out another marker, the
    result depends on the order: replacing the data first lets the board id
    into the data, replacing the id first does not. *)
Lemma render_replaces_all_and_order_matters :
  (render (BOARD_ID_MARK ++ lit "," ++ BOARD_ID_MARK) (lit "[]") (lit "2") (lit "t1")
   = lit "2,2" /\
   render_once (BOARD_ID_MARK ++ lit "," ++ BOARD_ID_MARK) (lit "[]") (lit "2") (lit "t1")
   = lit "2," ++ BOARD_ID_MARK) /\
  let val := values (json_dumps [BOARD_ID_MARK]) (lit "2") (lit "t1") in
  replace_in_order [DATA; ID; TIME] val BOARD_DATA_MARK
  <> replace_in_order [ID; DATA; TIME] val BOARD_DATA_MARK.
Proof.
  split; [split; vm_compute; reflexivity | ].
  cbv zeta. vm_compute. discriminate.
Qed.

Lemma fmt_char_not_lt c : fmt_char c = true -> Ascii.eqb "<"%char c = false.
Proof.
  destruct c as [[] [] [] [] [] [] [] []]; vm_compute; intros H;
    try discriminate H; reflexivity.
Qed.

(** Text without the character that every marker starts with is safe. *)
Lemma marker_safe_no_lt s :
  Forall (fun c => Ascii.eqb "<"%char c = false) s -> marker_safe s = true.
Proof.
  induction 1 as [ | c s Hc _ IH]; [reflexivity | ].
  cbn [marker_safe]. rewrite IH.
  unfold mark, BOARD_DATA_MARK, BOARD_ID_MARK, LAST_UPDATE_TIME_MARK.
  cbn [lit list_ascii_of_string diverges]. rewrite Hc. reflexivity.
Qed.

(** [str(n)] is made of digits and a sign: no marker starts inside it. *)
Lemma str_of_int_safe n : marker_safe (str_of_int n) = true.
Proof.
  apply marker_safe_no_lt.
  assert (Hu : forall d,
             Forall (fun c => Ascii.eqb "<"%char c = false)
               (list_ascii_of_string (DecimalString.NilZero.string_of_uint d))).
  { intros d. unfold DecimalString.NilZero.string_of_uint.
    assert (Hd : Forall (fun c => Ascii.eqb "<"%char c = false)
                   (list_ascii_of_string (DecimalString.NilEmpty.string_of_uint d))).
    { eapply Forall_impl; [ | apply uint_digits ].
      intros c Hc. apply fmt_char_not_lt, is_digit_fmt_char, Hc. }
    destruct d; try exact Hd. repeat constructor. }
  unfold str_of_int, lit, DecimalString.NilZero.string_of_int.
  destruct (Z.to_int n) as [d | d]; [apply Hu | ].
  cbn [list_ascii_of_string]. constructor; [reflexivity | apply Hu].
Qed.

(** C8, amended.  The render replaces every occurrence of each of the three
    markers by its value, literally, applying the replacements one after the
    other in the order data, id, time.  When no marker starts inside the text
    between the markers of the template nor inside the data and the
    timestamp (the id, a number, is always free of them), the result is the
    template with all markers replaced at once, and it is the same for each
    of the six orders of the three replacements. *)
Theorem render_is_simultaneous_substitution raw ps board_data_js board_id timestamp :
  universal_newlines raw = flatten ps ->
  Forall safe_piece ps ->
  marker_safe board_data_js = true ->
  marker_safe timestamp = true ->
  let val := values board_data_js (str_of_int board_id) timestamp in
  generate_html (Some raw) board_data_js board_id timestamp
  = Some (subst_all val ps) /\
  forall k1 k2 k3,
    NoDup [k1; k2; k3] ->
    replace_in_order [k1; k2; k3] val (flatten ps) = subst_all val ps.
Proof.
  intros Hraw Hps Hd Ht. cbv zeta.
  set (val := values board_data_js (str_of_int board_id) timestamp).
  assert (Hval : forall k, marker_safe (val k) = true)
    by (intros k; destruct k; [exact Hd | apply str_of_int_safe | exact Ht]).
  assert (Horder : forall k1 k2 k3,
             NoDup [k1; k2; k3] ->
             replace_in_order [k1; k2; k3] val (flatten ps) = subst_all val ps).
  { intros k1 k2 k3 Hnd. unfold replace_in_order. cbn [fold_left].
    rewrite (replace_pieces k1) by exact Hps.
    rewrite (replace_pieces k2)
      by (apply subst_one_safe; [apply Hval | exact Hps]).
    rewrite (replace_pieces k3)
      by (apply subst_one_safe; [apply Hval | ];
          apply subst_one_safe; [apply Hval | exact Hps]).
    apply subst_three. exact Hnd. }
  split; [ | exact Horder ].
  unfold generate_html. rewrite Hraw. f_equal.
  apply (Horder DATA ID TIME).
  repeat constructor; simpl; intuition discriminate.
Qed.

Lemma render_is_simultaneous_substitution_witness :
  let ps := [Text (lit "<p>"); Mark ID; Text (lit " at "); Mark TIME;
             Text (lit "</p><!-- board -->"); Mark DATA; Mark ID] in
  let val := values (json_dumps [lit "A"; lit "B"]) (str_of_int BOARD_ID)
               (lit "t1") in
  generate_html (Some (flatten ps)) (json_dumps [lit "A"; lit "B"]) BOARD_ID
    (lit "t1")
  = Some (subst_all val ps) /\
  forall k1 k2 k3,
    NoDup [k1; k2; k3] ->
    replace_in_order [k1; k2; k3] val (flatten ps) = subst_all val ps.
Proof.
  apply (render_is_simultaneous_substitution
           (flatten [Text (lit "<p>"); Mark ID; Text (lit " at "); Mark TIME;
                     Text (lit "</p><!-- board -->"); Mark DATA; Mark ID])
           [Text (lit "<p>"); Mark ID; Text (lit " at "); Mark TIME;
            Text (lit "</p><!-- board -->"); Mark DATA; Mark ID]
           (json_dumps [lit "A"; lit "B"]) BOARD_ID (lit "t1")).
  - vm_compute. reflexivity.
  - repeat constructor.
  - vm_compute. reflexivity.
  - vm_compute. reflexivity.
Defined.

(** ** Reading the header line back *)

Lemma lstrip_nonspace c s : isspace c = false -> lstrip (c :: s) = c :: s.
Proof. intros H. cbn [lstrip]. rewrite H. reflexivity. Qed.

(** [strip] takes the LF off a line that starts and ends with characters
    other than whitespace. *)
Lemma rstrip_line s d :
  isspace d = false -> rstrip (s ++ [d; newline]) = s ++ [d].
Proof.
  intros Hd. unfold rstrip.
  replace (s ++ [d; newline]) with ((s ++ [d]) ++ [newline])
    by (rewrite <- app_assoc; reflexivity).
  rewrite rev_unit. cbn [lstrip].
  change (isspace newline) with true. cbv iota.
  rewrite rev_unit, lstrip_nonspace by exact Hd.
  cbn [rev]. rewrite rev_involutive. reflexivity.
Qed.

Lemma strip_line c s d :
  isspace c = false -> isspace d = false ->
  strip (c :: s ++ [d; newline]) = c :: s ++ [d].
Proof.
  intros Hc Hd. unfold strip.
  rewrite lstrip_nonspace by exact Hc.
  apply (rstrip_line (c :: s) d Hd).
Qed.

Lemma split_from_absent s :
  Forall (fun c => Ascii.eqb "T"%char c = false) s ->
  split_from 0 TOTAL_TAG s = (s, []).
Proof.
  induction 1 as [ | c s Hc _ IH]; [reflexivity | ].
  cbn [split_from]. unfold TOTAL_TAG at 1. cbn [lit list_ascii_of_string startswith].
  rewrite Hc. cbn [andb]. rewrite IH. reflexivity.
Qed.

Lemma split_header rest :
  Forall (fun c => Ascii.eqb "T"%char c = false) rest ->
  split TOTAL_TAG (TOTAL_TAG ++ rest) = [[]; rest].
Proof.
  intros H. unfold split.
  change (split_from 0 TOTAL_TAG (TOTAL_TAG ++ rest))
    with ([] : str, let '(p, ps) := split_from 0 TOTAL_TAG rest in p :: ps).
  rewrite split_from_absent by exact H. reflexivity.
Qed.

Lemma float_of_str_space s : float_of_str (space :: s) = float_of_str s.
Proof.
  unfold float_of_str. cbn [map].
  change (to_ascii_space space) with space.
  set (t := map to_ascii_space s).
  assert (E : drop_underscores None (space :: t)
              = option_map (cons space) (drop_underscores None t)).
  { cbn [drop_underscores].
    change (Ascii.eqb space underscore) with false. cbv iota.
    change (false && negb (is_digit space)) with false. cbv iota.
    f_equal. destruct t as [ | c t]; reflexivity. }
  rewrite E. destruct (drop_underscores None t) as [s1 | ]; [ | reflexivity ].
  cbn [option_map]. reflexivity.
Qed.

(** The header the script writes is read back as the float its digits
    spell, and leaves the lines after it as the entries. *)
Lemma read_ledger_header x es :
  read_ledger ((TOTAL_HEAD ++ format_10f x ++ [newline]) :: es)
  = (float_or_zero (format_10f x), es).
Proof.
  pose proof (format_10f_chars x) as Hch.
  destruct (exists_last (format_10f_not_nil x)) as (body & d & E).
  rewrite E in *.
  apply Forall_app in Hch as [Hbody Hd].
  inversion Hd as [ | ? ? Hd' _]; subst.
  destruct (fmt_char_props d Hd') as (_ & _ & Hsp & _ & HT & _).
  unfold read_ledger.
  change (startswith TOTAL_TAG (TOTAL_HEAD ++ (body ++ [d]) ++ [newline])) with true.
  cbv iota.
  assert (Es : strip (TOTAL_HEAD ++ (body ++ [d]) ++ [newline])
               = TOTAL_TAG ++ space :: body ++ [d]).
  { rewrite <- app_assoc. cbn [app].
    change (TOTAL_HEAD ++ body ++ [d; newline])
      with ("T"%char :: lit "OTAL: " ++ body ++ [d; newline]).
    rewrite app_assoc, strip_line by (exact Hsp || reflexivity).
    rewrite <- app_assoc. reflexivity. }
  rewrite Es.
  rewrite split_header.
  - cbn [nth_error]. unfold float_or_zero.
    rewrite float_of_str_space. reflexivity.
  - constructor; [reflexivity | ].
    apply Forall_app. split.
    + eapply Forall_impl; [ | exact Hbody ].
      intros c Hc. apply (fmt_char_props c Hc).
    + constructor; [exact HT | constructor].
Qed.

(** ** Reading a rendered float back *)

Lemma read_digits_app ds : forall acc cnt rest,
  Forall (fun c => is_digit c = true) ds ->
  read_digits acc cnt (ds ++ rest)
  = read_digits (digits_value acc ds) (cnt + Z.of_nat (length ds)) rest.
Proof.
  induction ds as [ | c ds IH]; intros acc cnt rest H.
  - simpl. rewrite Z.add_0_r. reflexivity.
  - inversion H as [ | ? ? Hc Hds]; subst.
    change ((c :: ds) ++ rest) with (c :: ds ++ rest).
    cbn [read_digits]. unfold digits_value. cbn [fold_left].
    unfold is_digit in Hc. unfold digit at 2.
    destruct (digit_value c) as [d | ]; [ | discriminate Hc ].
    rewrite IH by exact Hds. unfold digits_value.
    f_equal. cbn [length]. lia.
Qed.

Lemma read_digits_all ds acc cnt :
  Forall (fun c => is_digit c = true) ds ->
  read_digits acc cnt ds
  = (digits_value acc ds, cnt + Z.of_nat (length ds), []).
Proof.
  intros H. rewrite <- (app_nil_r ds) at 1.
  rewrite read_digits_app by exact H. reflexivity.
Qed.

Lemma digits_value_acc d : forall acc,
  digits_value (Zpos acc)
    (list_ascii_of_string (DecimalString.NilEmpty.string_of_uint d))
  = Zpos (Pos.of_uint_acc d acc).
Proof.
  unfold digits_value.
  induction d; intros acc; cbn [DecimalString.NilEmpty.string_of_uint
                                list_ascii_of_string fold_left Pos.of_uint_acc];
    [ reflexivity | .. ];
    rewrite <- IHd; f_equal;
    match goal with
    | |- context [digit ?c] =>
        let v := eval vm_compute in (digit c) in change (digit c) with v
    end; lia.
Qed.

Lemma digits_value_uint d :
  digits_value 0 (list_ascii_of_string (DecimalString.NilEmpty.string_of_uint d))
  = Z.of_N (Pos.of_uint d).
Proof.
  induction d; cbn [DecimalString.NilEmpty.string_of_uint list_ascii_of_string
                    Pos.of_uint];
    [ reflexivity | exact IHd | .. ];
    unfold digits_value; cbn [fold_left]; apply digits_value_acc.
Qed.

Lemma digits_value_decimal n :
  0 <= n -> digits_value 0 (decimal_digits n) = n.
Proof.
  intros Hn. unfold decimal_digits, lit, DecimalString.NilZero.string_of_uint.
  pose proof (DecimalN.Unsigned.of_to (Z.to_N n)) as Hu.
  unfold N.of_uint in Hu.
  transitivity (Z.of_N (Pos.of_uint (N.to_uint (Z.to_N n))));
    [ | rewrite Hu; apply Z2N.id; exact Hn ].
  destruct (N.to_uint (Z.to_N n)) eqn:E;
    try (rewrite <- E; apply digits_value_uint).
  reflexivity.
Qed.

Lemma map_to_ascii_space_fmt s :
  Forall (fun c => fmt_char c = true) s -> map to_ascii_space s = s.
Proof.
  induction 1 as [ | c s Hc _ IH]; [reflexivity | ].
  cbn [map]. rewrite IH. f_equal. apply (fmt_char_props c Hc).
Qed.

Lemma drop_underscores_plain s : forall prev,
  match prev with Some p => Ascii.eqb p underscore = false | None => True end ->
  Forall (fun c => Ascii.eqb c underscore = false) s ->
  drop_underscores prev s = Some s.
Proof.
  induction s as [ | c s IH]; intros prev Hprev H.
  - destruct prev as [p | ]; [ | reflexivity ]. simpl. rewrite Hprev. reflexivity.
  - inversion H as [ | ? ? Hc Hs]; subst.
    cbn [drop_underscores]. rewrite Hc.
    assert (Hu : match prev with
                 | Some p => Ascii.eqb p underscore
                 | None => false
                 end = false)
      by (destruct prev; [exact Hprev | reflexivity]).
    rewrite Hu. cbn [andb]. rewrite (IH (Some c) Hc Hs). reflexivity.
Qed.

Lemma c_lstrip_plain s :
  Forall (fun c => c_isspace c = false) s -> c_lstrip s = s.
Proof.
  intros H. destruct H as [ | c s Hc _]; [reflexivity | ].
  cbn [c_lstrip]. rewrite Hc. reflexivity.
Qed.

Lemma c_strip_plain s :
  Forall (fun c => c_isspace c = false) s -> c_strip s = s.
Proof.
  intros H. unfold c_strip.
  rewrite (c_lstrip_plain s H).
  rewrite (c_lstrip_plain (rev s)) by (apply Forall_rev; exact H).
  apply rev_involutive.
Qed.

Lemma scaled_round_nonneg m e : 0 <= scaled_round m e.
Proof.
  unfold scaled_round.
  destruct (Z.leb_spec 0 e) as [He | He].
  - assert (0 < 2 ^ e) by (apply Z.pow_pos_nonneg; lia).
    assert (0 < 10 ^ 10) by (vm_compute; reflexivity).
    nia.
  - assert (Hb : 0 < 2 ^ (- e)) by (apply Z.pow_pos_nonneg; lia).
    assert (Ha : 0 <= Zpos m * 10 ^ 10)
      by (assert (0 < 10 ^ 10) by (vm_compute; reflexivity); nia).
    pose proof (Z.div_pos _ _ Ha Hb) as Hq.
    destruct (2 * ((Zpos m * 10 ^ 10) mod 2 ^ (- e)) ?= 2 ^ (- e));
      [ destruct (Z.even _) | | ]; lia.
Qed.

Lemma digits_value_zeros k : digits_value 0 (repeat zero_char k) = 0.
Proof. induction k as [ | k IH]; [reflexivity | exact IH]. Qed.

Lemma digits_value_app a b acc :
  digits_value acc (a ++ b) = digits_value (digits_value acc a) b.
Proof. apply fold_left_app. Qed.

(** [fixed10 n] is an integer part, a point and ten decimals, all digits,
    that spell [n] when the point is taken out. *)
Lemma fixed10_shape n :
  0 <= n ->
  exists ip fr,
    fixed10 n = ip ++ "."%char :: fr /\
    Forall (fun c => is_digit c = true) ip /\
    Forall (fun c => is_digit c = true) fr /\
    length fr = 10%nat /\
    digits_value 0 (ip ++ fr) = n.
Proof.
  intros Hn. unfold fixed10.
  set (ds := repeat zero_char (11 - length (decimal_digits n)) ++ decimal_digits n).
  assert (Hlen : (11 <= length ds)%nat).
  { unfold ds. rewrite length_app, repeat_length. lia. }
  assert (Hds : Forall (fun c => is_digit c = true) ds).
  { apply Forall_app. split; [ | apply decimal_digits_digits ].
    apply Forall_forall. intros c Hc. apply repeat_spec in Hc. subst c.
    reflexivity. }
  assert (Hval : digits_value 0 ds = n).
  { unfold ds. rewrite digits_value_app, digits_value_zeros.
    apply digits_value_decimal. exact Hn. }
  exists (firstn (length ds - 10) ds), (skipn (length ds - 10) ds).
  rewrite <- (firstn_skipn (length ds - 10) ds) in Hds.
  apply Forall_app in Hds as [H1 H2].
  split; [reflexivity | ]. split; [exact H1 | ]. split; [exact H2 | ].
  split; [rewrite length_skipn; lia | ].
  rewrite firstn_skipn. exact Hval.
Qed.

Lemma digit_not_sign c :
  is_digit c = true ->
  Ascii.eqb c "-"%char = false /\ Ascii.eqb c "+"%char = false.
Proof.
  destruct c as [[] [] [] [] [] [] [] []]; vm_compute; intros H;
    try discriminate H; split; reflexivity.
Qed.

Lemma read_sign_fixed s ip rest :
  Forall (fun c => is_digit c = true) ip ->
  read_sign (sign_str s ++ ip ++ "."%char :: rest) = (s, ip ++ "."%char :: rest).
Proof.
  intros Hip. destruct s; [reflexivity | ].
  destruct Hip as [ | c ip Hc _]; [reflexivity | ].
  destruct (digit_not_sign c Hc) as [H1 H2].
  cbn [sign_str app read_sign]. rewrite H1, H2. reflexivity.
Qed.

Lemma read_decimal_fixed s ip fr :
  Forall (fun c => is_digit c = true) ip ->
  Forall (fun c => is_digit c = true) fr ->
  fr <> [] ->
  read_decimal (sign_str s ++ ip ++ "."%char :: fr)
  = Some (float_of_decimal s (digits_value 0 (ip ++ fr))
            (0 - Z.of_nat (length fr)), []).
Proof.
  intros Hip Hfr Hne. unfold read_decimal.
  rewrite read_sign_fixed by exact Hip.
  rewrite read_digits_app by exact Hip.
  change (read_digits (digits_value 0 ip) (0 + Z.of_nat (length ip))
            ("."%char :: fr))
    with (digits_value 0 ip, 0 + Z.of_nat (length ip), "."%char :: fr).
  cbv beta iota zeta.
  change (Ascii.eqb "."%char "."%char) with true. cbv iota.
  rewrite read_digits_all by exact Hfr.
  destruct (Z.eqb_spec (0 + Z.of_nat (length ip) + (0 + Z.of_nat (length fr))) 0)
    as [E | _].
  - destruct fr; [congruence | ]. cbn [length] in E. lia.
  - rewrite digits_value_app. reflexivity.
Qed.

Lemma float_of_str_fixed s n :
  0 <= n ->
  float_of_str (sign_str s ++ fixed10 n) = Some (float_of_decimal s n (-10)).
Proof.
  intros Hn.
  assert (Hch : Forall (fun c => fmt_char c = true) (sign_str s ++ fixed10 n)).
  { apply Forall_app. split; [destruct s; repeat constructor | apply fixed10_chars]. }
  unfold float_of_str.
  rewrite map_to_ascii_space_fmt by exact Hch.
  rewrite (drop_underscores_plain _ None I)
    by (eapply Forall_impl; [ | exact Hch ];
        intros c Hc; apply (fmt_char_props c Hc)).
  rewrite c_strip_plain
    by (eapply Forall_impl; [ | exact Hch ];
        intros c Hc; apply (fmt_char_props c Hc)).
  destruct (fixed10_shape n Hn) as (ip & fr & -> & Hip & Hfr & Hlen & Hval).
  rewrite read_decimal_fixed; try assumption.
  - rewrite Hval, Hlen. reflexivity.
  - intros E. rewrite E in Hlen. discriminate Hlen.
Qed.

(** [float] reads [format(x, ".10f")] as [x] rounded to ten decimals. *)
Lemma float_of_str_format_10f x : float_of_str (format_10f x) = Some (round10 x).
Proof.
  destruct x as [s | s | | s m e]; unfold format_10f, round10.
  - rewrite float_of_str_fixed by lia. reflexivity.
  - destruct s; vm_compute; reflexivity.
  - vm_compute. reflexivity.
  - apply float_of_str_fixed, scaled_round_nonneg.
Qed.

Lemma float_or_zero_format_10f x : float_or_zero (format_10f x) = round10 x.
Proof. unfold float_or_zero. rewrite float_of_str_format_10f. reflexivity. Qed.

(** ** The fee ledger *)

(** [update_fee_file] depends on the old content only through the total and
    the entries the script reads from it. *)
Lemma update_fee_file_ledger f content :
  update_fee_file f (Some content)
  = TOTAL_HEAD ++ format_10f (fadd (fst (ledger_of content)) f) ++ [newline]
      ++ concat (snd (ledger_of content)) ++ format_10f f ++ [newline].
Proof.
  unfold update_fee_file, ledger_of.
  destruct (read_ledger (readlines (universal_newlines content))) as [t es].
  reflexivity.
Qed.

Lemma no_cr_in_fmt x : ~ In carriage_return (format_10f x).
Proof.
  intros H. pose proof (format_10f_chars x) as Hch.
  rewrite Forall_forall in Hch.
  destruct (fmt_char_props _ (Hch _ H)) as (_ & Hcr & _). congruence.
Qed.

Lemma no_newline_in_fmt x : ~ In newline (format_10f x).
Proof.
  intros H. pose proof (format_10f_chars x) as Hch.
  rewrite Forall_forall in Hch.
  destruct (fmt_char_props _ (Hch _ H)) as (Hnl & _). congruence.
Qed.

(** What the script wrote is read back line by line: the header, the
    entries that were terminated, and the new entry. *)
Lemma readlines_written t f es :
  Forall (fun l => l <> [] /\ ~ In newline (removelast l)) es ->
  Forall terminated es ->
  ~ In carriage_return (concat es) ->
  let written := TOTAL_HEAD ++ format_10f t ++ [newline]
                   ++ concat es ++ format_10f f ++ [newline] in
  readlines (universal_newlines written)
  = (TOTAL_HEAD ++ format_10f t ++ [newline]) :: es ++ [format_10f f ++ [newline]].
Proof.
  intros Hshape Hterm Hcr. cbv zeta.
  rewrite universal_newlines_id.
  - replace (TOTAL_HEAD ++ format_10f t ++ [newline]
               ++ concat es ++ format_10f f ++ [newline])
      with ((TOTAL_HEAD ++ format_10f t)
              ++ newline :: (concat es ++ format_10f f ++ [newline]))
      by (rewrite <- app_assoc; reflexivity).
    rewrite readlines_terminated.
    + rewrite readlines_concat by assumption.
      replace (format_10f f ++ [newline]) with (format_10f f ++ newline :: [])
        by reflexivity.
      rewrite readlines_terminated by apply no_newline_in_fmt.
      rewrite <- app_assoc. reflexivity.
    + intros H. apply in_app_or in H as [H | H].
      * unfold TOTAL_HEAD in H. simpl in H. intuition discriminate.
      * exact (no_newline_in_fmt t H).
  - intros H.
    repeat (apply in_app_or in H as [H | H]);
      try solve [ exact (no_cr_in_fmt _ H) | exact (Hcr H) ].
    + unfold TOTAL_HEAD in H. simpl in H. intuition discriminate.
    + simpl in H. intuition discriminate.
    + simpl in H. intuition discriminate.
Qed.

(** C1, as the claim has it, fails: after recording the fee of 21 001 units
    of gas at the base price in a ledger whose total is zero, the file holds
    that fee rounded to ten decimals, as total and as entry, and the total
    read back is not the old total plus the fee. *)
Lemma recorded_total_is_rounded :
  let fee := fdiv (binary_normalize prec emax (21001 * 1300000) 0 false)
               float_1e18 in
  let after := update_fee_file fee (Some zero_ledger) in
  ledger_of zero_ledger = (float_zero, []) /\
  after = lit "TOTAL: 0.0000000273" ++ newline :: lit "0.0000000273" ++ [newline] /\
  fst (ledger_of after) <> fadd (fst (ledger_of zero_ledger)) fee.
Proof.
  cbv zeta. split; [vm_compute; reflexivity | ].
  split; [vm_compute; reflexivity | ].
  vm_compute. discriminate.
Qed.

(** A last entry that lacks its LF runs into the new entry: the two are read
    back as one line. *)
Lemma unterminated_entry_is_merged :
  let before := lit "TOTAL: 1.0" ++ newline :: lit "2.0" in
  let after := update_fee_file float_five (Some before) in
  after = lit "TOTAL: 6.0000000000" ++ newline :: lit "2.05.0000000000" ++ [newline]
  /\ snd (ledger_of after) = [lit "2.05.0000000000" ++ [newline]].
Proof. vm_compute. split; reflexivity. Qed.

(** C1, amended.  For every ledger file whose first line starts with
    "TOTAL:" (read by the script as the total [T]) and whose entry lines
    [e1..en] each end with a line feed, one call of [update_fee_file(f)]
    rewrites the file as the header "TOTAL: " followed by [T + f] with ten
    decimals, then [e1..en] unchanged, then [f] with ten decimals as the last
    line.  Read back, the file gives exactly these lines: the entries
    [e1..en] followed by the rendering of [f], and as total [T + f] rounded
    to ten decimals (the binary64 number nearest to that decimal). *)
Theorem record_appends_rounded_entry f content l0 es :
  readlines (universal_newlines content) = l0 :: es ->
  startswith TOTAL_TAG l0 = true ->
  Forall terminated es ->
  let T := fst (ledger_of content) in
  let after := update_fee_file f (Some content) in
  snd (ledger_of content) = es /\
  after = TOTAL_HEAD ++ format_10f (fadd T f) ++ [newline]
            ++ concat es ++ format_10f f ++ [newline] /\
  readlines (universal_newlines after)
  = (TOTAL_HEAD ++ format_10f (fadd T f) ++ [newline])
      :: es ++ [format_10f f ++ [newline]] /\
  ledger_of after = (round10 (fadd T f), es ++ [format_10f f ++ [newline]]).
Proof.
  intros Hlines Htag Hterm. cbv zeta.
  assert (Hes : snd (ledger_of content) = es).
  { unfold ledger_of, read_ledger. rewrite Hlines, Htag. reflexivity. }
  assert (Hshape : Forall (fun l => l <> [] /\ ~ In newline (removelast l)) es).
  { pose proof (readlines_shape (universal_newlines content)) as H.
    rewrite Hlines in H. inversion H; assumption. }
  assert (Hcr : ~ In carriage_return (concat es)).
  { intros H. apply (universal_newlines_no_cr content).
    rewrite <- (concat_readlines (universal_newlines content)), Hlines.
    cbn [concat]. apply in_or_app. right. exact H. }
  pose proof (readlines_written (fadd (fst (ledger_of content)) f) f es
                Hshape Hterm Hcr) as Hread.
  cbv zeta in Hread.
  rewrite update_fee_file_ledger, Hes.
  split; [reflexivity | ]. split; [reflexivity | ]. split; [exact Hread | ].
  unfold ledger_of at 1.
  rewrite Hread, read_ledger_header, float_or_zero_format_10f. reflexivity.
Qed.

Lemma record_appends_rounded_entry_witness :
  let content := lit "TOTAL: 1.5" ++ newline :: lit "0.5" ++ newline
                   :: lit "1.0" ++ [newline] in
  let es := [lit "0.5" ++ [newline]; lit "1.0" ++ [newline]] in
  let T := fst (ledger_of content) in
  let after := update_fee_file float_five (Some content) in
  snd (ledger_of content) = es /\
  after = TOTAL_HEAD ++ format_10f (fadd T float_five) ++ [newline]
            ++ concat es ++ format_10f float_five ++ [newline] /\
  readlines (universal_newlines after)
  = (TOTAL_HEAD ++ format_10f (fadd T float_five) ++ [newline])
      :: es ++ [format_10f float_five ++ [newline]] /\
  ledger_of after
  = (round10 (fadd T float_five), es ++ [format_10f float_five ++ [newline]]).
Proof.
  apply (record_appends_rounded_entry float_five
           (lit "TOTAL: 1.5" ++ newline :: lit "0.5" ++ newline
              :: lit "1.0" ++ [newline])
           (lit "TOTAL: 1.5" ++ [newline])
           [lit "0.5" ++ [newline]; lit "1.0" ++ [newline]]).
  - vm_compute. reflexivity.
  - vm_compute. reflexivity.
  - repeat constructor.
Defined.

(** C7.  On a missing or an empty [fee.txt], [update_fee_file(f)] writes
    what it writes on a ledger holding a total of zero and no entry: the
    header with [0.0 + f] and the one entry [f].  On a file whose first line
    does not start with "TOTAL:" it writes the same again, whatever the file
    held; so [update_fee_file(5.0)] succeeds with the file "TOTAL:
    5.0000000000", "5.0000000000", which reads back as a total of 5.0 and the
    new entry alone. *)
Theorem missing_or_malformed_ledger_starts_from_zero f content :
  match readlines (universal_newlines content) with
  | l0 :: _ => startswith TOTAL_TAG l0 = false
  | [] => True
  end ->
  update_fee_file f None
  = TOTAL_HEAD ++ format_10f (fadd float_zero f) ++ [newline]
      ++ format_10f f ++ [newline] /\
  update_fee_file f (Some []) = update_fee_file f None /\
  update_fee_file f (Some zero_ledger) = update_fee_file f None /\
  update_fee_file f (Some content) = update_fee_file f None /\
  update_fee_file float_five (Some content)
  = lit "TOTAL: 5.0000000000" ++ newline :: lit "5.0000000000" ++ [newline] /\
  ledger_of (update_fee_file float_five (Some content))
  = (float_five, [lit "5.0000000000" ++ [newline]]).
Proof.
  intros Hhead.
  assert (Hnone : update_fee_file f None
                  = TOTAL_HEAD ++ format_10f (fadd float_zero f) ++ [newline]
                      ++ format_10f f ++ [newline]) by reflexivity.
  assert (Hzero : ledger_of zero_ledger = (float_zero, []))
    by (vm_compute; reflexivity).
  assert (Hcontent : ledger_of content = (float_zero, [])).
  { unfold ledger_of, read_ledger.
    destruct (readlines (universal_newlines content)) as [ | l0 ls];
      [reflexivity | ].
    rewrite Hhead. reflexivity. }
  assert (Hany : forall g, update_fee_file g (Some content) = update_fee_file g None).
  { intros g. rewrite update_fee_file_ledger, Hcontent. reflexivity. }
  split; [exact Hnone | ]. split; [reflexivity | ].
  split; [rewrite update_fee_file_ledger, Hzero; reflexivity | ].
  split; [apply Hany | ].
  rewrite Hany. split; vm_compute; reflexivity.
Qed.

Lemma missing_or_malformed_ledger_starts_from_zero_witness :
  let content := lit "total 41.5" ++ newline :: lit "1.0" ++ [newline] in
  update_fee_file float_five None
  = TOTAL_HEAD ++ format_10f (fadd float_zero float_five) ++ [newline]
      ++ format_10f float_five ++ [newline] /\
  update_fee_file float_five (Some []) = update_fee_file float_five None /\
  update_fee_file float_five (Some zero_ledger) = update_fee_file float_five None /\
  update_fee_file float_five (Some content) = update_fee_file float_five None /\
  update_fee_file float_five (Some content)
  = lit "TOTAL: 5.0000000000" ++ newline :: lit "5.0000000000" ++ [newline] /\
  ledger_of (update_fee_file float_five (Some content))
  = (float_five, [lit "5.0000000000" ++ [newline]]).
Proof.
  apply (missing_or_malformed_ledger_starts_from_zero float_five
           (lit "total 41.5" ++ newline :: lit "1.0" ++ [newline])).
  vm_compute. reflexivity.
Defined.

(** ** Invariants of the running loop *)

Lemma cycle_price_in_range inp st :
  price_in_range (current_gas_price_wei (globals st)) ->
  price_in_range (current_gas_price_wei (globals (fst (cycle inp st)))).
Proof.
  intros Hp. unfold cycle.
  destruct (prepare inp (last_timestamp st)) as [evs | c html]; [exact Hp | ].
  pose proof (push_price_in_range html (rpcs inp) (globals st) Hp) as H.
  destruct (push_to_contract html (rpcs inp) (globals st)) as [[ok w'] evs].
  unfold world_after in H. simpl in H. destruct ok; exact H.
Qed.

(** In every state the loop reaches from its start the gas price lies
    between the base price and less than one step above the maximum. *)
Theorem reachable_price_in_range fee inputs :
  price_in_range
    (current_gas_price_wei (globals (fst (main_loop inputs (initial_state fee))))).
Proof.
  assert (Hgen : forall st,
             price_in_range (current_gas_price_wei (globals st)) ->
             price_in_range
               (current_gas_price_wei (globals (fst (main_loop inputs st))))).
  { induction inputs as [ | inp rest IH]; intros st Hp; [exact Hp | ].
    cbn [main_loop].
    pose proof (cycle_price_in_range inp st Hp) as Hc.
    destruct (cycle inp st) as [st1 evs1]. specialize (IH st1 Hc).
    destruct (main_loop rest st1) as [st2 evs2]. exact IH. }
  apply Hgen. unfold price_in_range, initial_state.
  cbn [globals current_gas_price_wei].
  rewrite BASE_GAS_PRICE_value, GAS_PRICE_MAX_value, GAS_PRICE_STEP_value. lia.
Qed.

(** When the submitter fails for an update, the next pass that finds the
    same board file and template submits the same document under the same
    timestamp again. *)
Theorem failed_update_is_retried inp inp' st c html :
  prepare inp (last_timestamp st) = Submit c html ->
  returned (push_to_contract html (rpcs inp) (globals st)) = false ->
  board_txt inp' = board_txt inp ->
  template_html inp' = template_html inp ->
  prepare inp' (last_timestamp (fst (cycle inp st))) = Submit c html.
Proof.
  intros Hprep Hfail Hboard Htpl.
  pose proof (cycle_last_timestamp inp st) as Hc.
  rewrite Hprep, Hfail in Hc. rewrite Hc, <- Hprep.
  unfold prepare. rewrite Hboard, Htpl. reflexivity.
Qed.

Lemma failed_update_is_retried_witness :
  let down := {| board_txt := board_txt demo_input;
                 template_html := template_html demo_input;
                 rpcs := [unreachable (lit "A"); timing_out (lit "B")] |} in
  let st := initial_state None in
  prepare demo_input (last_timestamp (fst (cycle down st)))
  = Submit (lit "t1")
      (lit "<script>var b = [" ++ dquote :: lit "A" ++ dquote :: lit ", "
         ++ dquote :: lit "B" ++ dquote
         :: lit "];</script><p>2 at t1</p>").
Proof.
  apply (failed_update_is_retried
           {| board_txt := board_txt demo_input;
              template_html := template_html demo_input;
              rpcs := [unreachable (lit "A"); timing_out (lit "B")] |}
           demo_input (initial_state None)); vm_compute; reflexivity.
Defined.

(** * Further properties of the code *)

(** ** The gas price across attempts and calls *)

Lemma escalate_on_ladder p : on_ladder p -> on_ladder (escalate p).
Proof.
  unfold on_ladder, escalate.
  rewrite BASE_GAS_PRICE_value, GAS_PRICE_MAX_value, GAS_PRICE_STEP_value.
  intros (k & Hk & ->).
  destruct (Z.ltb_spec (1300000 + k * 300000) 3000000).
  - exists (k + 1). split; lia.
  - exists k. split; [exact Hk | reflexivity].
Qed.

Lemma base_on_ladder : on_ladder BASE_GAS_PRICE.
Proof. exists 0. split; lia. Qed.

Lemma push_on_ladder html rpcs : forall w,
  on_ladder (current_gas_price_wei w) ->
  on_ladder (current_gas_price_wei (world_after (push_to_contract html rpcs w))).
Proof.
  induction rpcs as [ | ep rest IH]; intros w Hp; [exact Hp | ].
  destruct (confirms (current_gas_price_wei w) ep) eqn:Ec.
  - destruct (push_cons_confirms html ep rest w Ec) as (g & x & _ & _ & ->).
    apply base_on_ladder.
  - destruct (push_cons_continue html ep rest w Ec) as (evs1 & _ & _ & _ & _ & Hk).
    set (w2 := set_price (if is_timeout ep
                          then escalate (current_gas_price_wei w)
                          else current_gas_price_wei w) w) in *.
    assert (Hp2 : on_ladder (current_gas_price_wei w2)).
    { unfold w2. cbn [set_price current_gas_price_wei].
      destruct (is_timeout ep); [apply escalate_on_ladder | ]; exact Hp. }
    specialize (IH w2 Hp2).
    destruct (push_to_contract html rest w2) as [[r w'] evs] eqn:E.
    rewrite (Hk r w' evs eq_refl). exact IH.
Qed.

Lemma cycle_on_ladder inp st :
  on_ladder (current_gas_price_wei (globals st)) ->
  on_ladder (current_gas_price_wei (globals (fst (cycle inp st)))).
Proof.
  intros Hp. unfold cycle.
  destruct (prepare inp (last_timestamp st)) as [evs | c html]; [exact Hp | ].
  pose proof (push_on_ladder html (rpcs inp) (globals st) Hp) as H.
  destruct (push_to_contract html (rpcs inp) (globals st)) as [[ok w'] evs].
  unfold world_after in H. cbn [fst snd] in H. destruct ok; exact H.
Qed.

(** In every state the loop reaches, the gas price is one of seven values:
    the base price plus zero to six steps (1 300 000 up to 3 100 000). *)
Theorem reachable_price_on_ladder fee inputs :
  on_ladder
    (current_gas_price_wei (globals (fst (main_loop inputs (initial_state fee))))).
Proof.
  assert (Hgen : forall st,
             on_ladder (current_gas_price_wei (globals st)) ->
             on_ladder
               (current_gas_price_wei (globals (fst (main_loop inputs st))))).
  { induction inputs as [ | inp rest IH]; intros st Hp; [exact Hp | ].
    cbn [main_loop].
    pose proof (cycle_on_ladder inp st Hp) as Hc.
    destruct (cycle inp st) as [st1 evs1]. specialize (IH st1 Hc).
    destruct (main_loop rest st1) as [st2 evs2]. exact IH. }
  apply Hgen. apply base_on_ladder.
Qed.

Lemma price_after_iter l : forall p,
  price_after l p = Nat.iter (length (filter is_timeout l)) escalate p.
Proof.
  induction l as [ | ep l IH]; intros p; [reflexivity | ].
  unfold price_after in *. cbn [fold_left filter].
  destruct (is_timeout ep).
  - rewrite IH. cbn [length]. symmetry. apply Nat.iter_succ_r.
  - apply IH.
Qed.

(** A call that succeeds leaves the base price, whatever the price was; a
    call that fails leaves the price escalated once for each endpoint whose
    attempt raised an exception with "timeout" (in any letter case) in its
    message, and untouched by the others.  The endpoints that count are told
    by that word alone: an endpoint on which the transaction stays pending
    until the wait for the receipt runs out is not among them. *)
Theorem price_after_call html rpcs w :
  let r := push_to_contract html rpcs w in
  current_gas_price_wei (world_after r)
  = (if returned r then BASE_GAS_PRICE
     else Nat.iter (length (filter is_timeout rpcs)) escalate
            (current_gas_price_wei w)) /\
  (forall ep,
      is_timeout ep = true <->
      exists msg,
        reply_of ep = Raised msg /\ contains TIMEOUT_WORD (lower msg) = true) /\
  (forall rpc tx_hash, is_timeout (pending rpc tx_hash) = false).
Proof.
  cbv zeta. split; [ | split].
  - rewrite push_price, price_after_iter. reflexivity.
  - intros ep. unfold is_timeout. destruct (reply_of ep) as [ | msg | s g].
    + split; [discriminate | intros (m & H & _); discriminate H].
    + split.
      * intros H. exists msg. split; [reflexivity | exact H].
      * intros (m & H & Hm). injection H as ->. exact Hm.
    + split; [discriminate | intros (m & H & _); discriminate H].
  - apply pending_is_no_timeout.
Qed.

Lemma attempt_prices_app a b :
  attempt_prices (a ++ b) = attempt_prices a ++ attempt_prices b.
Proof. apply flat_map_app. Qed.

Lemma on_exception_no_attempt rpc msg w :
  attempt_prices (snd (on_exception rpc msg w)) = [].
Proof.
  unfold on_exception.
  destruct (contains TIMEOUT_WORD (lower msg));
    [ destruct (current_gas_price_wei w <? GAS_PRICE_MAX) | ]; reflexivity.
Qed.

Lemma on_exception_price_ge rpc msg w :
  current_gas_price_wei w <= current_gas_price_wei (fst (on_exception rpc msg w)).
Proof.
  rewrite on_exception_world. cbn [set_price current_gas_price_wei].
  destruct (contains TIMEOUT_WORD (lower msg)); [apply escalate_ge | lia].
Qed.

(** Within one call the gas price offered never goes down from one attempt
    to the next, and no attempt is made below the price the call started
    with. *)
Theorem attempt_prices_never_decrease html rpcs : forall w,
  let ps := attempt_prices (log_of (push_to_contract html rpcs w)) in
  Forall (fun p => current_gas_price_wei w <= p) ps /\
  Sorted.StronglySorted Z.le ps.
Proof.
  cbv zeta. unfold log_of.
  induction rpcs as [ | ep rest IH]; intros w; [split; constructor | ].
  assert (Hstep : forall w1 : world,
             current_gas_price_wei w <= current_gas_price_wei w1 ->
             let ps := attempt_prices (snd (push_to_contract html rest w1)) in
             Forall (fun p => current_gas_price_wei w <= p)
               (current_gas_price_wei w :: ps) /\
             Sorted.StronglySorted Z.le (current_gas_price_wei w :: ps)).
  { intros w1 Hle. cbv zeta. destruct (IH w1) as [Hall Hsorted].
    assert (Hall' : Forall (fun p => current_gas_price_wei w <= p)
                      (attempt_prices (snd (push_to_contract html rest w1)))).
    { eapply Forall_impl; [ | exact Hall ]. cbv beta. intros p Hp. lia. }
    split; constructor; try assumption. lia. }
  cbn [push_to_contract].
  destruct (reply_of ep) as [ | msg | status gasUsed].
  - specialize (IH w).
    destruct (push_to_contract html rest w) as [[r w'] evs]. exact IH.
  - pose proof (on_exception_no_attempt (url ep) msg w) as Hno.
    pose proof (on_exception_price_ge (url ep) msg w) as Hge.
    destruct (on_exception (url ep) msg w) as [w1 evs1].
    cbn [fst snd] in Hno, Hge.
    specialize (Hstep w1 Hge). cbv zeta in Hstep.
    destruct (push_to_contract html rest w1) as [[r w'] evs].
    cbn [snd] in *. cbn [attempt_prices flat_map app].
    fold (attempt_prices (evs1 ++ evs)).
    rewrite attempt_prices_app, Hno. exact Hstep.
  - destruct (status =? 1).
    + destruct (int_to_float (gasUsed * current_gas_price_wei w)).
      * cbn [snd attempt_prices flat_map app]. split; repeat constructor. lia.
      * pose proof (on_exception_no_attempt (url ep) OVERFLOW_MSG w) as Hno.
        pose proof (on_exception_price_ge (url ep) OVERFLOW_MSG w) as Hge.
        destruct (on_exception (url ep) OVERFLOW_MSG w) as [w1 evs1].
        cbn [fst snd] in Hno, Hge.
        specialize (Hstep w1 Hge). cbv zeta in Hstep.
        destruct (push_to_contract html rest w1) as [[r w'] evs].
        cbn [snd] in *. cbn [attempt_prices flat_map app].
        fold (attempt_prices (evs1 ++ evs)).
        rewrite attempt_prices_app, Hno. exact Hstep.
    + specialize (Hstep w (Z.le_refl _)). cbv zeta in Hstep.
      destruct (push_to_contract html rest w) as [[r w'] evs].
      cbn [snd] in *. exact Hstep.
Qed.

(** ** What a call does to the ledger *)

(** The ledger file after a call is the file before it with the logged fees
    recorded: one fee when the call succeeds, none when it fails. *)
Lemma push_ledger_effect html rpcs : forall w,
  let r := push_to_contract html rpcs w in
  fee_txt (world_after r) = record_all (fees_recorded (log_of r)) (fee_txt w) /\
  length (fees_recorded (log_of r)) = (if returned r then 1%nat else 0%nat).
Proof.
  cbv zeta.
  induction rpcs as [ | ep rest IH]; intros w; [split; reflexivity | ].
  destruct (confirms (current_gas_price_wei w) ep) eqn:Ec.
  - destruct (push_cons_confirms html ep rest w Ec) as (g & x & _ & _ & ->).
    split; reflexivity.
  - destruct (push_cons_continue html ep rest w Ec)
      as (evs1 & _ & _ & Hf & _ & Hk).
    set (w2 := set_price (if is_timeout ep
                          then escalate (current_gas_price_wei w)
                          else current_gas_price_wei w) w) in *.
    specialize (IH w2).
    destruct (push_to_contract html rest w2) as [[r w'] evs] eqn:E.
    rewrite (Hk r w' evs eq_refl).
    unfold world_after, log_of, returned in *. cbn [fst snd] in *.
    rewrite fees_recorded_app, Hf. exact IH.
Qed.

(** A call that fails leaves [fee.txt] as it was and records no fee; a call
    that succeeds records exactly one fee, and the file it leaves is the one
    [update_fee_file] makes of the old file for that fee. *)
Theorem ledger_written_once_on_success html rpcs w :
  let r := push_to_contract html rpcs w in
  if returned r
  then exists fee,
         fees_recorded (log_of r) = [fee] /\
         fee_txt (world_after r) = Some (update_fee_file fee (fee_txt w))
  else fees_recorded (log_of r) = [] /\ fee_txt (world_after r) = fee_txt w.
Proof.
  cbv zeta. destruct (push_ledger_effect html rpcs w) as [Hfile Hlen].
  cbv zeta in Hfile, Hlen.
  destruct (returned (push_to_contract html rpcs w)).
  - destruct (fees_recorded (log_of (push_to_contract html rpcs w)))
      as [ | fee [ | fee' l]]; try discriminate Hlen.
    exists fee. split; [reflexivity | exact Hfile].
  - destruct (fees_recorded (log_of (push_to_contract html rpcs w)));
      [ | discriminate Hlen ].
    split; [reflexivity | exact Hfile].
Qed.

(** When no endpoint is connected (an empty list included) the call fails
    at once: every endpoint is skipped, no transaction is attempted, and the
    gas price and the ledger stay as they were. *)
Theorem no_endpoint_connected_changes_nothing html rpcs w :
  forallb (fun ep => negb (connected ep)) rpcs = true ->
  push_to_contract html rpcs w
  = (false, w, map (fun ep => Skipped (url ep)) rpcs).
Proof.
  induction rpcs as [ | ep rest IH]; intros H; [reflexivity | ].
  cbn [forallb] in H. apply andb_true_iff in H as [Hep Hrest].
  unfold connected in Hep. cbn [push_to_contract map].
  destruct (reply_of ep); try discriminate Hep.
  rewrite (IH Hrest). reflexivity.
Qed.

Lemma no_endpoint_connected_changes_nothing_witness :
  push_to_contract (lit "<p>2</p>")
    [unreachable (lit "A"); unreachable (lit "B")]
    (globals (initial_state None))
  = (false, globals (initial_state None),
     map (fun ep => Skipped (url ep))
       [unreachable (lit "A"); unreachable (lit "B")]).
Proof.
  apply (no_endpoint_connected_changes_nothing (lit "<p>2</p>")
           [unreachable (lit "A"); unreachable (lit "B")]
           (globals (initial_state None))).
  reflexivity.
Defined.

(** ** What the loop submits, and when *)

Lemma same_timestamp_false last c : same_timestamp last c = false -> last <> Some c.
Proof.
  unfold same_timestamp. destruct last as [t | ]; [ | discriminate ].
  destruct (list_eq_dec ascii_dec c t); [discriminate | ].
  intros _ E. injection E as ->. congruence.
Qed.

(** A pass submits only what a well-formed board file asks for: the file is
    there and not empty, its last line starts with "Timestamp:", the
    timestamp taken from that line differs from the last one published, the
    template could be read, and the document is the template rendered with
    the lines before the timestamp line, the board id and that timestamp. *)
Theorem submit_only_for_new_well_formed_board inp last c html :
  prepare inp last = Submit c html ->
  exists raw line tpl,
    board_txt inp = Some raw /\
    last_line (splitlines (universal_newlines raw)) = Some line /\
    startswith TIMESTAMP_TAG line = true /\
    c = clock_of line /\
    last <> Some c /\
    template_html inp = Some tpl /\
    html = render (universal_newlines tpl)
             (json_dumps (removelast (splitlines (universal_newlines raw))))
             (str_of_int BOARD_ID) c.
Proof.
  unfold prepare.
  destruct (board_txt inp) as [raw | ]; [ | discriminate ].
  destruct (last_line (splitlines (universal_newlines raw))) as [line | ] eqn:El;
    [ | discriminate ].
  destruct (startswith TIMESTAMP_TAG line) eqn:Et; [ | discriminate ].
  cbn [negb].
  destruct (same_timestamp last (clock_of line)) eqn:Es; [discriminate | ].
  unfold generate_html.
  destruct (template_html inp) as [tpl | ]; [ | discriminate ].
  intros E. injection E as <- <-.
  exists raw, line, tpl.
  split; [reflexivity | ]. split; [exact El | ]. split; [exact Et | ].
  split; [reflexivity | ].
  split; [apply same_timestamp_false; exact Es | ].
  split; reflexivity.
Qed.

Lemma submit_only_for_new_well_formed_board_witness :
  exists raw line tpl,
    board_txt demo_input = Some raw /\
    last_line (splitlines (universal_newlines raw)) = Some line /\
    startswith TIMESTAMP_TAG line = true /\
    lit "t1" = clock_of line /\
    None <> Some (lit "t1") /\
    template_html demo_input = Some tpl /\
    lit "<script>var b = [" ++ dquote :: lit "A" ++ dquote :: lit ", "
      ++ dquote :: lit "B" ++ dquote :: lit "];</script><p>2 at t1</p>"
    = render (universal_newlines tpl)
        (json_dumps (removelast (splitlines (universal_newlines raw))))
        (str_of_int BOARD_ID) (lit "t1").
Proof.
  apply (submit_only_for_new_well_formed_board demo_input None).
  vm_compute. reflexivity.
Defined.

Lemma prepare_submit_new inp last c html :
  prepare inp last = Submit c html -> last <> Some c.
Proof.
  unfold prepare.
  destruct (board_txt inp) as [raw | ]; [ | discriminate ].
  destruct (last_line _) as [line | ]; [ | discriminate ].
  destruct (negb _); [discriminate | ].
  destruct (same_timestamp last (clock_of line)) eqn:Es; [discriminate | ].
  destruct (generate_html _ _ _ _); [ | discriminate ].
  intros E. injection E as <- _. apply same_timestamp_false. exact Es.
Qed.

Lemma publishes_app a b : publishes (a ++ b) = publishes a ++ publishes b.
Proof. apply flat_map_app. Qed.

Lemma publishes_plain evs :
  (forall c, ~ In (Published c) evs) -> publishes evs = [].
Proof.
  induction evs as [ | e evs IH]; intros H; [reflexivity | ].
  assert (H' : forall c, ~ In (Published c) evs)
    by (intros c Hc; apply (H c); right; exact Hc).
  destruct e; cbn [publishes flat_map app]; try (apply IH; exact H').
  exfalso. apply (H timestamp). left. reflexivity.
Qed.

Lemma fees_recorded_idle inp last evs :
  prepare inp last = Idle evs -> fees_recorded evs = [].
Proof.
  unfold prepare.
  destruct (board_txt inp) as [raw | ]; [ | intros E; inversion E; reflexivity ].
  destruct (last_line _) as [line | ]; [ | intros E; inversion E; reflexivity ].
  destruct (negb _); [intros E; inversion E; reflexivity | ].
  destruct (same_timestamp _ _); [intros E; inversion E; reflexivity | ].
  destruct (generate_html _ _ _ _); intros E; inversion E; reflexivity.
Qed.

(** One pass: what it publishes, what fees it records and what it does to
    the ledger file. *)
Lemma cycle_effect inp st :
  let r := cycle inp st in
  no_repeat (last_timestamp st) (publishes (snd r)) /\
  last_timestamp (fst r)
  = last (map Some (publishes (snd r))) (last_timestamp st) /\
  fee_txt (globals (fst r))
  = record_all (fees_recorded (snd r)) (fee_txt (globals st)) /\
  length (fees_recorded (snd r)) = length (publishes (snd r)).
Proof.
  cbv zeta. unfold cycle.
  destruct (prepare inp (last_timestamp st)) as [evs | c html] eqn:Ep.
  - cbn [fst snd].
    rewrite (publishes_plain evs)
      by (intros c; exact (prepare_idle_no_published _ _ _ c Ep)).
    rewrite (fees_recorded_idle _ _ _ Ep). repeat split.
  - pose proof (prepare_submit_new _ _ _ _ Ep) as Hnew.
    pose proof (fun c => push_log_no_published html (rpcs inp) c (globals st))
      as Hn.
    destruct (push_ledger_effect html (rpcs inp) (globals st)) as [Hfile Hlen].
    cbv zeta in Hfile, Hlen.
    destruct (push_to_contract html (rpcs inp) (globals st)) as [[ok w'] evs].
    unfold log_of, world_after, returned in *. cbn [fst snd] in *.
    pose proof (publishes_plain evs Hn) as Hp.
    destruct ok; cbn [fst snd last_timestamp globals];
      change (Detected c :: evs ++ ?l) with ([Detected c] ++ evs ++ l);
      rewrite !publishes_app, !fees_recorded_app, Hp; cbn [publishes flat_map app];
      cbn [fees_recorded flat_map app]; rewrite app_nil_r.
    + repeat split; try assumption.
    + repeat split; try assumption.
Qed.

Lemma last_cons {A : Type} (l : list A) : forall x d,
  last (x :: l) d = last l x.
Proof.
  induction l as [ | y l IH]; intros x d; [reflexivity | ].
  change (last (x :: y :: l) d) with (last (y :: l) d).
  rewrite (IH y d), (IH y x). reflexivity.
Qed.

Lemma no_repeat_app a : forall b prev,
  no_repeat prev a ->
  no_repeat (last (map Some a) prev) b ->
  no_repeat prev (a ++ b).
Proof.
  induction a as [ | c a IH]; intros b prev Ha Hb; [exact Hb | ].
  destruct Ha as [Hc Ha]. split; [exact Hc | ].
  apply IH; [exact Ha | ].
  cbn [map] in Hb. rewrite last_cons in Hb. exact Hb.
Qed.

Lemma last_map_app (a : list str) : forall b prev,
  last (map Some (a ++ b)) prev = last (map Some b) (last (map Some a) prev).
Proof.
  induction a as [ | c a IH]; intros b prev; [reflexivity | ].
  cbn [app map]. rewrite !last_cons. apply IH.
Qed.

(** Over any number of passes, from any state. *)
Lemma main_loop_effect inputs : forall st,
  let r := main_loop inputs st in
  no_repeat (last_timestamp st) (publishes (snd r)) /\
  last_timestamp (fst r)
  = last (map Some (publishes (snd r))) (last_timestamp st) /\
  fee_txt (globals (fst r))
  = record_all (fees_recorded (snd r)) (fee_txt (globals st)) /\
  length (fees_recorded (snd r)) = length (publishes (snd r)).
Proof.
  cbv zeta.
  induction inputs as [ | inp rest IH]; intros st; [repeat split | ].
  cbn [main_loop].
  destruct (cycle_effect inp st) as (Hn1 & Hl1 & Hf1 & Hc1). cbv zeta in *.
  destruct (cycle inp st) as [st1 evs1].
  destruct (IH st1) as (Hn2 & Hl2 & Hf2 & Hc2).
  destruct (main_loop rest st1) as [st2 evs2].
  cbn [fst snd] in *.
  rewrite publishes_app, fees_recorded_app, !length_app.
  split; [ | split; [ | split ] ].
  - apply no_repeat_app; [exact Hn1 | ]. rewrite <- Hl1. exact Hn2.
  - rewrite last_map_app, <- Hl1. exact Hl2.
  - unfold record_all in *. rewrite fold_left_app, <- Hf1. exact Hf2.
  - lia.
Qed.

(** The loop never publishes the same timestamp twice in a row: in the log
    of any run, each published timestamp differs from the one published
    before it. *)
Theorem never_publishes_same_timestamp_twice_in_a_row fee inputs :
  no_repeat None (publishes (snd (main_loop inputs (initial_state fee)))).
Proof.
  destruct (main_loop_effect inputs (initial_state fee)) as (H & _).
  exact H.
Qed.

(** The ledger file after any run is the file the loop found, with the fees
    the log shows as recorded written to it one after the other; and a fee is
    recorded exactly once for each update published. *)
Theorem ledger_follows_published_updates fee inputs :
  let r := main_loop inputs (initial_state fee) in
  fee_txt (globals (fst r)) = record_all (fees_recorded (snd r)) fee /\
  length (fees_recorded (snd r)) = length (publishes (snd r)).
Proof.
  destruct (main_loop_effect inputs (initial_state fee)) as (_ & _ & Hf & Hc).
  split; [exact Hf | exact Hc].
Qed.

(** ** The ledger file, call after call *)

Lemma update_fee_file_any f file :
  update_fee_file f file
  = TOTAL_HEAD ++ format_10f (fadd (fst (ledger_of_file file)) f) ++ [newline]
      ++ concat (snd (ledger_of_file file)) ++ format_10f f ++ [newline].
Proof.
  unfold update_fee_file, ledger_of_file, ledger_of.
  destruct (read_ledger _) as [t es]. reflexivity.
Qed.

Lemma terminated_snoc l : terminated (l ++ [newline]).
Proof. unfold terminated. rewrite last_last. reflexivity. Qed.

Lemma terminated_cons c l : terminated l -> terminated (c :: l).
Proof.
  unfold terminated. destruct l as [ | d l]; [discriminate | ].
  intros H. exact H.
Qed.

(** Text that ends with LF is read as lines that all end with LF. *)
Lemma readlines_all_terminated s : Forall terminated (readlines (s ++ [newline])).
Proof.
  induction s as [ | c s IH]; [repeat constructor | ].
  change ((c :: s) ++ [newline]) with (c :: s ++ [newline]).
  cbn [readlines]. destruct (Ascii.eqb c newline) eqn:Ec.
  - constructor; [ | exact IH ].
    apply Ascii.eqb_eq in Ec. subst c. reflexivity.
  - destruct (readlines (s ++ [newline])) as [ | l ls] eqn:E.
    + pose proof (concat_readlines (s ++ [newline])) as Hc.
      rewrite E in Hc. destruct s; discriminate Hc.
    + inversion IH as [ | ? ? Hl Hls]; subst.
      constructor; [apply terminated_cons; exact Hl | exact Hls].
Qed.

Lemma read_ledger_entries lines c :
  In c (concat (snd (read_ledger lines))) -> In c (concat lines).
Proof.
  unfold read_ledger. destruct lines as [ | l0 rest]; [intros [] | ].
  destruct (startswith TOTAL_TAG l0); cbn [snd concat]; [ | intros [] ].
  intros H. apply in_or_app. right. exact H.
Qed.

Lemma ledger_entries_no_cr file :
  ~ In carriage_return (concat (snd (ledger_of_file file))).
Proof.
  unfold ledger_of_file, ledger_of. intros H.
  apply read_ledger_entries in H. rewrite concat_readlines in H.
  exact (universal_newlines_no_cr _ H).
Qed.

Lemma no_cr_in_head : ~ In carriage_return TOTAL_HEAD.
Proof. unfold TOTAL_HEAD. simpl. intuition discriminate. Qed.

Lemma no_newline_in_head : ~ In newline TOTAL_HEAD.
Proof. unfold TOTAL_HEAD. simpl. intuition discriminate. Qed.

(** Whatever [fee.txt] held, or if it was missing, the file that
    [update_fee_file] leaves starts with the "TOTAL:" tag, holds no carriage
    return, consists of lines that all end with a line feed, and shows as its
    total the old total plus the fee, rounded to ten decimals. *)
Theorem update_fee_file_output_well_formed f file :
  let out := update_fee_file f file in
  startswith TOTAL_TAG out = true /\
  universal_newlines out = out /\
  Forall terminated (readlines out) /\
  fst (ledger_of out) = add_rounded (fst (ledger_of_file file)) f.
Proof.
  cbv zeta. rewrite update_fee_file_any.
  set (t := fadd (fst (ledger_of_file file)) f).
  set (es := snd (ledger_of_file file)).
  assert (Hcr : universal_newlines
                  (TOTAL_HEAD ++ format_10f t ++ [newline]
                     ++ concat es ++ format_10f f ++ [newline])
                = TOTAL_HEAD ++ format_10f t ++ [newline]
                    ++ concat es ++ format_10f f ++ [newline]).
  { apply universal_newlines_id. intros H.
    repeat (apply in_app_or in H as [H | H]);
      try solve [ exact (no_cr_in_fmt _ H)
                | exact (no_cr_in_head H)
                | exact (ledger_entries_no_cr file H) ];
      simpl in H; intuition discriminate. }
  assert (Hlines : readlines (TOTAL_HEAD ++ format_10f t ++ [newline]
                                ++ concat es ++ format_10f f ++ [newline])
                   = (TOTAL_HEAD ++ format_10f t ++ [newline])
                       :: readlines ((concat es ++ format_10f f) ++ [newline])).
  { replace (TOTAL_HEAD ++ format_10f t ++ [newline]
               ++ concat es ++ format_10f f ++ [newline])
      with ((TOTAL_HEAD ++ format_10f t)
              ++ newline :: ((concat es ++ format_10f f) ++ [newline]))
      by (rewrite <- !app_assoc; reflexivity).
    rewrite readlines_terminated.
    - rewrite <- app_assoc. reflexivity.
    - intros H. apply in_app_or in H as [H | H];
        [exact (no_newline_in_head H) | exact (no_newline_in_fmt t H)]. }
  split; [reflexivity | ]. split; [exact Hcr | ]. split.
  - rewrite Hlines. constructor; [ | apply readlines_all_terminated ].
    rewrite app_assoc. apply terminated_snoc.
  - unfold ledger_of. rewrite Hcr, Hlines, read_ledger_header.
    apply float_or_zero_format_10f.
Qed.

Lemma entry_lines_shape fs :
  Forall (fun l => l <> [] /\ ~ In newline (removelast l)) (map entry_line fs).
Proof.
  induction fs as [ | f fs IH]; constructor; [ | exact IH ].
  unfold entry_line. split.
  - intros H. apply app_eq_nil in H as [_ H]. discriminate H.
  - rewrite removelast_last. apply no_newline_in_fmt.
Qed.

Lemma entry_lines_terminated fs : Forall terminated (map entry_line fs).
Proof.
  induction fs as [ | f fs IH]; constructor; [apply terminated_snoc | exact IH].
Qed.

Lemma entry_lines_no_cr fs : ~ In carriage_return (concat (map entry_line fs)).
Proof.
  induction fs as [ | f fs IH]; [intros [] | ].
  cbn [map concat]. unfold entry_line at 1. intros H.
  repeat (apply in_app_or in H as [H | H]).
  - exact (no_cr_in_fmt f H).
  - simpl in H. intuition discriminate.
  - exact (IH H).
Qed.

(** A file the script wrote is read back as its header total, rounded, and
    one entry for each fee. *)
Lemma ledger_of_written t fs :
  ledger_of (written_ledger t fs) = (round10 t, map entry_line fs).
Proof.
  unfold ledger_of, written_ledger.
  rewrite universal_newlines_id.
  - replace (TOTAL_HEAD ++ format_10f t ++ [newline] ++ concat (map entry_line fs))
      with ((TOTAL_HEAD ++ format_10f t)
              ++ newline :: (concat (map entry_line fs) ++ []))
      by (rewrite app_nil_r, <- app_assoc; reflexivity).
    rewrite readlines_terminated.
    + rewrite readlines_concat
        by (apply entry_lines_shape || apply entry_lines_terminated).
      cbn [readlines]. rewrite app_nil_r, <- app_assoc.
      rewrite read_ledger_header. f_equal. apply float_or_zero_format_10f.
    + intros H. apply in_app_or in H as [H | H];
        [exact (no_newline_in_head H) | exact (no_newline_in_fmt t H)].
  - intros H.
    repeat (apply in_app_or in H as [H | H]).
    + exact (no_cr_in_head H).
    + exact (no_cr_in_fmt t H).
    + simpl in H. intuition discriminate.
    + exact (entry_lines_no_cr fs H).
Qed.

Lemma update_written g t fs :
  update_fee_file g (Some (written_ledger t fs))
  = written_ledger (fadd (round10 t) g) (fs ++ [g]).
Proof.
  rewrite update_fee_file_ledger, ledger_of_written. cbn [fst snd].
  unfold written_ledger. rewrite map_app, concat_app.
  cbn [map concat]. unfold entry_line at 3. rewrite app_nil_r. reflexivity.
Qed.

Lemma update_missing g :
  update_fee_file g None = written_ledger (fadd float_zero g) [g].
Proof.
  unfold written_ledger, entry_line. cbn [map concat]. rewrite app_nil_r.
  reflexivity.
Qed.

Lemma add_rounded_fold fees : forall t,
  round10 (fold_left (fun a f => fadd (round10 a) f) fees t)
  = fold_left add_rounded fees (round10 t).
Proof.
  induction fees as [ | g fees IH]; intros t; [reflexivity | ].
  cbn [fold_left]. rewrite IH. reflexivity.
Qed.

Lemma record_all_written fees : forall t fs,
  record_all fees (Some (written_ledger t fs))
  = Some (written_ledger
            (fold_left (fun a f => fadd (round10 a) f) fees t) (fs ++ fees)).
Proof.
  unfold record_all.
  induction fees as [ | g fees IH]; intros t fs.
  - rewrite app_nil_r. reflexivity.
  - cbn [fold_left]. rewrite update_written, IH, <- app_assoc. reflexivity.
Qed.

(** Fees recorded one after the other on a missing [fee.txt] leave a ledger
    whose entries are these fees, each with ten decimals, in the order they
    were recorded, and whose total is the running sum, rounded to ten
    decimals after each addition. *)
Theorem ledger_after_recording fees :
  ledger_of_file (record_all fees None)
  = (fold_left add_rounded fees float_zero, map entry_line fees).
Proof.
  destruct fees as [ | g fees]; [reflexivity | ].
  unfold record_all. cbn [fold_left]. fold (record_all fees).
  rewrite update_missing.
  change (fold_left (fun file f => Some (update_fee_file f file)) fees)
    with (record_all fees).
  rewrite record_all_written. unfold ledger_of_file.
  rewrite ledger_of_written, add_rounded_fold. reflexivity.
Qed.

(** ** The rendered document *)

Lemma diverges_app m : forall s rest,
  diverges m s = true -> diverges m (s ++ rest) = true.
Proof.
  induction m as [ | a m IH]; intros s rest H; [discriminate H | ].
  destruct s as [ | b s]; [discriminate H | ].
  cbn [app diverges] in *. destruct (Ascii.eqb a b); [ | reflexivity ].
  apply IH. exact H.
Qed.

Lemma marker_safe_app a b :
  marker_safe a = true -> marker_safe b = true -> marker_safe (a ++ b) = true.
Proof.
  intros Ha Hb. induction a as [ | c a IH]; [exact Hb | ].
  pose proof (marker_safe_tail c a Ha) as Ht.
  change ((c :: a) ++ b) with (c :: a ++ b). cbn [marker_safe].
  rewrite (IH Ht).
  change (c :: a ++ b) with ((c :: a) ++ b).
  rewrite !diverges_app by (apply marker_safe_diverges; exact Ha).
  reflexivity.
Qed.

Lemma marker_safe_subst_all val ps :
  Forall safe_piece ps ->
  (forall k, marker_safe (val k) = true) ->
  marker_safe (subst_all val ps) = true.
Proof.
  intros Hps Hval. unfold subst_all.
  induction Hps as [ | p ps Hp _ IH]; [reflexivity | ].
  cbn [flat_map]. apply marker_safe_app; [ | exact IH ].
  destruct p as [s | k]; [exact Hp | apply Hval].
Qed.

Lemma marker_safe_contains k s :
  marker_safe s = true -> contains (mark k) s = false.
Proof.
  induction s as [ | c s IH]; intros H; [destruct k; reflexivity | ].
  cbn [contains]. rewrite (IH (marker_safe_tail c s H)).
  rewrite <- (app_nil_r (c :: s)) at 1.
  rewrite (diverges_not_prefix _ _ [] (marker_safe_diverges k c s H)).
  reflexivity.
Qed.

(** When no marker starts inside the text between the markers of the
    template, inside the board data or inside the timestamp, the document
    [generate_html] returns holds no marker any more. *)
Theorem rendered_document_has_no_marker raw ps board_data_js board_id timestamp :
  universal_newlines raw = flatten ps ->
  Forall safe_piece ps ->
  marker_safe board_data_js = true ->
  marker_safe timestamp = true ->
  exists html,
    generate_html (Some raw) board_data_js board_id timestamp = Some html /\
    forall k, contains (mark k) html = false.
Proof.
  intros Hraw Hps Hd Ht.
  set (val := values board_data_js (str_of_int board_id) timestamp).
  assert (Hval : forall k, marker_safe (val k) = true)
    by (intros k; destruct k; [exact Hd | apply str_of_int_safe | exact Ht]).
  exists (subst_all val ps). split.
  - unfold generate_html, render. rewrite Hraw. f_equal.
    rewrite (replace_pieces DATA) by exact Hps.
    rewrite (replace_pieces ID)
      by (apply subst_one_safe; [apply (Hval DATA) | exact Hps]).
    rewrite (replace_pieces TIME)
      by (apply subst_one_safe; [apply (Hval ID) | ];
          apply subst_one_safe; [apply (Hval DATA) | exact Hps]).
    apply (subst_three DATA ID TIME val).
    repeat constructor; simpl; intuition discriminate.
  - intros k. apply marker_safe_contains, marker_safe_subst_all; assumption.
Qed.

Lemma rendered_document_has_no_marker_witness :
  exists html,
    generate_html (template_html demo_input) (json_dumps [lit "A"; lit "B"])
      BOARD_ID (lit "t1") = Some html /\
    forall k, contains (mark k) html = false.
Proof.
  apply (rendered_document_has_no_marker
           (lit "<script>var b = <!--BOARD_DATA-->;</script><p><!--BOARD_ID--> at <!--LAST_UPDATE_TIME--></p>")
           [Text (lit "<script>var b = "); Mark DATA;
            Text (lit ";</script><p>"); Mark ID; Text (lit " at "); Mark TIME;
            Text (lit "</p>")]
           (json_dumps [lit "A"; lit "B"]) BOARD_ID (lit "t1")).
  - vm_compute. reflexivity.
  - repeat constructor.
  - vm_compute. reflexivity.
  - vm_compute. reflexivity.
Defined.

(** ** From the board file to the submission *)

(** The timestamp of the line "Timestamp: " followed by a token that does
    not hold "Timestamp: " itself is the token, stripped. *)
Lemma clock_of_token t :
  contains TIMESTAMP_HEAD t = false ->
  clock_of (TIMESTAMP_HEAD ++ t) = strip t.
Proof.
  intros H. unfold clock_of.
  change (replace TIMESTAMP_HEAD [] (TIMESTAMP_HEAD ++ t))
    with (replace_from 0 TIMESTAMP_HEAD [] t).
  rewrite replace_from_absent by exact H. reflexivity.
Qed.

Lemma not_linebreak_not_cr c :
  is_linebreak c = false ->
  Ascii.eqb c carriage_return = false /\ Ascii.eqb c newline = false.
Proof.
  destruct c as [[] [] [] [] [] [] [] []]; vm_compute; intros H;
    try discriminate H; split; reflexivity.
Qed.

Lemma plain_line_cons c l :
  plain_line (c :: l) -> is_linebreak c = false /\ plain_line l.
Proof.
  unfold plain_line. cbn [forallb]. intros H.
  apply andb_true_iff in H as [Hc Hl]. apply negb_true_iff in Hc. tauto.
Qed.

Lemma splitlines_plain_line l : forall rest,
  plain_line l -> splitlines (l ++ newline :: rest) = l :: splitlines rest.
Proof.
  induction l as [ | c l IH]; intros rest H; [reflexivity | ].
  apply plain_line_cons in H as [Hc Hl].
  destruct (not_linebreak_not_cr c Hc) as [Hcr _].
  change ((c :: l) ++ newline :: rest) with (c :: l ++ newline :: rest).
  cbn [splitlines]. rewrite Hcr, Hc, (IH rest Hl). reflexivity.
Qed.

Lemma splitlines_board_file lines :
  Forall plain_line lines -> splitlines (board_file lines) = lines.
Proof.
  unfold board_file.
  induction 1 as [ | l lines Hl _ IH]; [reflexivity | ].
  cbn [map concat]. rewrite <- app_assoc. cbn [app].
  rewrite splitlines_plain_line by exact Hl. rewrite IH. reflexivity.
Qed.

Lemma plain_line_no_cr l : plain_line l -> ~ In carriage_return l.
Proof.
  induction l as [ | c l IH]; intros H; [intros [] | ].
  apply plain_line_cons in H as [Hc Hl].
  destruct (not_linebreak_not_cr c Hc) as [Hcr _].
  intros [E | Hin]; [ | exact (IH Hl Hin) ].
  subst c. discriminate Hcr.
Qed.

Lemma board_file_no_cr lines :
  Forall plain_line lines -> ~ In carriage_return (board_file lines).
Proof.
  unfold board_file.
  induction 1 as [ | l lines Hl _ IH]; [intros [] | ].
  cbn [map concat]. intros H.
  repeat (apply in_app_or in H as [H | H]).
  - exact (plain_line_no_cr l Hl H).
  - simpl in H. intuition discriminate.
  - exact (IH H).
Qed.

Lemma same_timestamp_new last c : last <> Some c -> same_timestamp last c = false.
Proof.
  unfold same_timestamp. destruct last as [t | ]; [ | reflexivity ].
  destruct (list_eq_dec ascii_dec c t) as [-> | ]; [ | reflexivity ].
  intros H. exfalso. apply H. reflexivity.
Qed.

(** A board file written as data lines and then the line "Timestamp: "
    followed by a token, each line closed by a line feed and free of line
    boundaries inside, is submitted under the token (stripped) whenever that
    differs from the last timestamp published; the document is rendered from
    exactly the data lines, in order, the timestamp line left out. *)
Theorem board_file_is_read_back data token tpl endpoints last :
  Forall plain_line data ->
  plain_line token ->
  contains TIMESTAMP_HEAD token = false ->
  last <> Some (strip token) ->
  prepare {| board_txt := Some (board_file (data ++ [TIMESTAMP_HEAD ++ token]));
             template_html := Some tpl;
             rpcs := endpoints |} last
  = Submit (strip token)
      (render (universal_newlines tpl) (json_dumps data) (str_of_int BOARD_ID)
         (strip token)).
Proof.
  intros Hdata Htoken Habsent Hnew.
  assert (Hlines : Forall plain_line (data ++ [TIMESTAMP_HEAD ++ token])).
  { apply Forall_app. split; [exact Hdata | ].
    constructor; [ | constructor ].
    unfold plain_line in *. rewrite forallb_app, Htoken. reflexivity. }
  unfold prepare. cbn [board_txt template_html].
  rewrite universal_newlines_id by (apply board_file_no_cr; exact Hlines).
  rewrite splitlines_board_file by exact Hlines.
  assert (Hlast : last_line (data ++ [TIMESTAMP_HEAD ++ token])
                  = Some (TIMESTAMP_HEAD ++ token)).
  { unfold last_line. rewrite last_last. destruct data; reflexivity. }
  rewrite Hlast.
  change (startswith TIMESTAMP_TAG (TIMESTAMP_HEAD ++ token)) with true.
  cbn [negb]. rewrite clock_of_token by exact Habsent.
  rewrite same_timestamp_new by exact Hnew.
  rewrite removelast_last. reflexivity.
Qed.

Lemma board_file_is_read_back_witness :
  prepare {| board_txt := Some (board_file ([lit "A"; lit "B"]
                                            ++ [TIMESTAMP_HEAD ++ lit "t1 "]));
             template_html := Some (lit "<!--BOARD_DATA--> <!--LAST_UPDATE_TIME-->");
             rpcs := demo_rpcs |} None
  = Submit (strip (lit "t1 "))
      (render (universal_newlines (lit "<!--BOARD_DATA--> <!--LAST_UPDATE_TIME-->"))
         (json_dumps [lit "A"; lit "B"]) (str_of_int BOARD_ID)
         (strip (lit "t1 "))).
Proof.
  apply (board_file_is_read_back [lit "A"; lit "B"] (lit "t1 ")
           (lit "<!--BOARD_DATA--> <!--LAST_UPDATE_TIME-->") demo_rpcs None).
  - repeat constructor.
  - reflexivity.
  - reflexivity.
  - discriminate.
Defined.
